(** * The Opus frame encoder wrapper (src/OpusEncoder/opus_frame_encoder.c)

    A shallow embedding of the six exported functions of
    [opus_frame_encoder.c].  The wrapper is C code that talks to two
    collaborators: the C allocator ([malloc]/[free]) and the Codec Engine
    (libopus: [opus_encoder_create], [opus_encode], [opus_encoder_ctl],
    [opus_encoder_destroy]).  Both are outside the repository, so they are
    parameters of the development:

    - the engine is an instance of the class [CodecEngine]: a type of
      per-instance encoder states and the transition functions of one
      instance;
    - the allocator is a function [pick] proposing the address of the next
      block; a proposal that is null or already live counts as a failed
      allocation.

    Memory is one heap of blocks (context structs, engine instances and
    caller-owned byte buffers) keyed by address.  Every call that leaves the
    wrapper is appended to a trace, so that statements about what is passed
    to the engine, and in which order, are statements about the trace.
    Undefined behaviour of the C code (a dangling handle, reading an
    indeterminate field, a division by zero) is the result [None]; reads
    and writes past the end of a caller's buffer, which only the engine
    could make, are not modelled. *)

From Stdlib Require Import ZArith Lia.
From Stdlib.Strings Require Import Byte.
From stdpp Require Import gmap list.

Local Open Scope Z_scope.

(** ** C integers *)

(** [int] is 32 bits wide; Emscripten's wasm32 ABI makes [size_t] an
    unsigned 32-bit type. *)
Definition INT_BITS : Z := 32.
Definition SIZE_BITS : Z := 32.

(** Conversion to an unsigned type of [w] bits: reduction modulo [2^w]. *)
Definition to_unsigned (w x : Z) : Z := x mod 2 ^ w.

(** Conversion to a signed type of [w] bits (two's complement wrap). *)
Definition to_signed (w x : Z) : Z :=
  let u := x mod 2 ^ w in
  if u <? 2 ^ (w - 1) then u else u - 2 ^ w.

Definition to_size_t : Z → Z := to_unsigned SIZE_BITS.
Definition to_int : Z → Z := to_signed INT_BITS.

(** Modelled from the spec: [sizeof(opus_int16)].  The type is declared in
    libopus's headers, which are not part of the repository; it is a 16-bit
    integer, and the spec (4.3) divides the byte length by 2. *)
Definition sizeof_opus_int16 : Z := 2.

(** The null pointer. *)
Definition NULL : Z := 0.

(** ** The context struct *)

(** [opus_encoder_context].  A field of a block that [malloc] has just
    returned holds an indeterminate value: [None] until it is written. *)
Record opus_encoder_context : Type := mk_context {
  encoder : option Z;
  sample_rate : option Z;
  channels : option Z;
  frame_size : option Z
}.

Definition indeterminate : opus_encoder_context :=
  mk_context None None None None.

Inductive field : Type :=
| f_encoder
| f_sample_rate
| f_channels
| f_frame_size.

Definition get_field (f : field) (c : opus_encoder_context) : option Z :=
  match f with
  | f_encoder => encoder c
  | f_sample_rate => sample_rate c
  | f_channels => channels c
  | f_frame_size => frame_size c
  end.

Definition set_field (f : field) (v : Z) (c : opus_encoder_context)
  : opus_encoder_context :=
  match f with
  | f_encoder => mk_context (Some v) (sample_rate c) (channels c) (frame_size c)
  | f_sample_rate => mk_context (encoder c) (Some v) (channels c) (frame_size c)
  | f_channels => mk_context (encoder c) (sample_rate c) (Some v) (frame_size c)
  | f_frame_size => mk_context (encoder c) (sample_rate c) (channels c) (Some v)
  end.

(** ** The Codec Engine *)

(** What the wrapper consumes from the engine.  [encoder_init] is the
    engine's verdict on a configuration: the status it reports, and the
    initial state of the instance it hands back when it hands one back.
    The reference engine hands back an instance with [OPUS_OK] and with no
    other status (it frees a state it could not initialise and returns a
    null pointer with the error); the wrapper tests the status and the
    pointer separately, and the model leaves both open.
    [encode_frame] maps an instance state, the bytes found at [pcm], the
    per-channel sample count and [max_data_bytes] to the returned [int], the
    bytes written at [data] and the next state.  [encoder_ctl] is one
    request of the generic control interface with its integer argument. *)
Class CodecEngine : Type := {
  OpusEncoder : Type;
  OPUS_OK : Z;
  OPUS_ALLOC_FAIL : Z;
  OPUS_SET_BITRATE_REQUEST : Z;
  OPUS_SET_COMPLEXITY_REQUEST : Z;
  encoder_init : Z → Z → Z → Z * option OpusEncoder;
  encode_frame : OpusEncoder → list byte → Z → Z → Z * list byte * OpusEncoder;
  encoder_ctl : OpusEncoder → Z → Z → Z * OpusEncoder
}.

(** Calls that leave the wrapper, with their arguments and results. *)
Inductive event : Type :=
| EMalloc (ret : Z)
| EFree (p : Z)
| ECreate (Fs channels application error ret : Z)
| EEncode (st pcm frame_size data max_data_bytes ret : Z)
| ECtl (st request value ret : Z)
| EDestroy (st : Z).

Definition engine_event (e : event) : bool :=
  match e with
  | EMalloc _ | EFree _ => false
  | _ => true
  end.

Section Memory.
Context `{engine : CodecEngine}.

(** ** Memory *)

Inductive block : Type :=
| Ctx (c : opus_encoder_context)
| Enc (st : OpusEncoder)
| Buf (bytes : list byte).

Record world : Type := mk_world {
  heap : gmap Z block;
  trace : list event
}.

(** ** The monad of the wrapper: state, with undefined behaviour *)

Definition M (A : Type) : Type := world → option (A * world).

Definition ret {A} (a : A) : M A := λ w, Some (a, w).

Definition bind {A B} (m : M A) (k : A → M B) : M B :=
  λ w, match m w with
       | Some (a, w') => k a w'
       | None => None
       end.

Definition undefined {A} : M A := λ _, None.

Definition log (e : event) (w : world) : world :=
  mk_world (heap w) (trace w ++ [e]).

Definition set_heap (h : gmap Z block) (w : world) : world :=
  mk_world h (trace w).

End Memory.

Notation "x <- m ; k" := (bind m (λ x, k))
  (at level 100, m at next level, right associativity,
   format "'[v' x  <-  m ; '/' k ']'").
Notation "m ;; k" := (bind m (λ _, k))
  (at level 100, right associativity, format "'[v' m ;; '/' k ']'").

Section Wrapper.
Context `{engine : CodecEngine}.

(** The allocator proposes an address for the next block. *)
Variable pick : gmap Z block → Z.

(** The address an allocation returns: the proposal when it is non-null and
    not live, null (failure) otherwise. *)
Definition fresh_block (h : gmap Z block) : Z :=
  let p := pick h in
  if decide (p = NULL) then NULL
  else match h !! p with
       | None => p
       | Some _ => NULL
       end.

(** ** The C library *)

(** [malloc(sizeof(opus_encoder_context))]. *)
Definition malloc : M Z := λ w,
  let p := fresh_block (heap w) in
  let h := if decide (p = NULL) then heap w
           else <[p := Ctx indeterminate]> (heap w) in
  Some (p, log (EMalloc p) (set_heap h w)).

(** [free(p)]: [p] is null or a live block that [malloc] returned. *)
Definition free (p : Z) : M unit := λ w,
  if decide (p = NULL) then Some (tt, log (EFree p) w)
  else match heap w !! p with
       | Some (Ctx _) => Some (tt, log (EFree p) (set_heap (delete p (heap w)) w))
       | _ => None
       end.

(** [ctx->f] read. *)
Definition load (ctx : Z) (f : field) : M Z := λ w,
  match heap w !! ctx with
  | Some (Ctx c) =>
      match get_field f c with
      | Some v => Some (v, w)
      | None => None
      end
  | _ => None
  end.

(** [ctx->f = v]. *)
Definition store (ctx : Z) (f : field) (v : Z) : M unit := λ w,
  match heap w !! ctx with
  | Some (Ctx c) => Some (tt, set_heap (<[ctx := Ctx (set_field f v c)]> (heap w)) w)
  | _ => None
  end.

(** Division in [size_t]; a zero divisor is undefined. *)
Definition size_div (a b : Z) : M Z :=
  if decide (b = 0) then undefined else ret (a / b).

(** ** The engine's entry points *)

(** [opus_encoder_create(Fs, channels, application, &error)]: the value
    stored in [error] and the returned pointer.  The instance, when the
    engine hands one back, lives in a block of its own, whatever the status
    that comes with it; when there is no memory for that block the engine
    reports [OPUS_ALLOC_FAIL] and a null pointer. *)
Definition opus_encoder_create (Fs channels application : Z) : M (Z * Z) := λ w,
  match encoder_init Fs channels application with
  | (error, None) =>
      Some ((error, NULL), log (ECreate Fs channels application error NULL) w)
  | (error, Some st) =>
      let p := fresh_block (heap w) in
      if decide (p = NULL)
      then Some ((OPUS_ALLOC_FAIL, NULL),
                 log (ECreate Fs channels application OPUS_ALLOC_FAIL NULL) w)
      else Some ((error, p),
                 log (ECreate Fs channels application error p)
                     (set_heap (<[p := Enc st]> (heap w)) w))
  end.

(** What [data] holds once the engine has written [written] at its start.
    Bytes that would fall past the end of the block are dropped: a write
    out of bounds is not modelled, so a statement about the contents of the
    output buffer is about calls in which the engine writes no more than
    the block holds. *)
Definition overlay (written old : list byte) : list byte :=
  take (length old) written ++ drop (length written) old.

(** [opus_encode(st, pcm, frame_size, data, max_data_bytes)].  The engine is
    given the bytes of the block at [pcm] and the two lengths as numbers.
    In C a call whose lengths declare more than the two blocks hold reads
    or writes out of bounds; the model does not make such a call undefined,
    and what is proved of an arbitrary encode call is what is forwarded to
    the engine and what is returned.  The lengths that fit the blocks are
    part of the protocol ([respects]). *)
Definition opus_encode (st pcm frame_size data max_data_bytes : Z) : M Z := λ w,
  match heap w !! st, heap w !! pcm, heap w !! data with
  | Some (Enc s), Some (Buf input), Some (Buf old) =>
      let '(n, written, s') := encode_frame s input frame_size max_data_bytes in
      Some (n, log (EEncode st pcm frame_size data max_data_bytes n)
                   (set_heap (<[data := Buf (overlay written old)]>
                                (<[st := Enc s']> (heap w))) w))
  | _, _, _ => None
  end.

(** [opus_encoder_ctl(st, request, value)]. *)
Definition opus_encoder_ctl (st request value : Z) : M Z := λ w,
  match heap w !! st with
  | Some (Enc s) =>
      let '(n, s') := encoder_ctl s request value in
      Some (n, log (ECtl st request value n)
                   (set_heap (<[st := Enc s']> (heap w)) w))
  | _ => None
  end.

(** [opus_encoder_destroy(st)]. *)
Definition opus_encoder_destroy (st : Z) : M unit := λ w,
  match heap w !! st with
  | Some (Enc _) => Some (tt, log (EDestroy st) (set_heap (delete st (heap w)) w))
  | _ => None
  end.

(** ** The wrapper *)

(** Lines 14-35:
<<
    opus_encoder_context *ctx = malloc(sizeof(opus_encoder_context));
    if (!ctx) return NULL;
    ctx->encoder = opus_encoder_create(sample_rate, channels, application, &error);
    if (error != OPUS_OK || !ctx->encoder) { free(ctx); return NULL; }
    ctx->sample_rate = sample_rate;
    ctx->channels = channels;
    ctx->frame_size = sample_rate / 50;
    return ctx;
>>
    [sample_rate / 50] divides two [int]s: C truncates towards zero. *)
Definition opus_frame_encoder_create (sample_rate channels application : Z) : M Z :=
  ctx <- malloc;
  if decide (ctx = NULL) then ret NULL
  else
    r <- opus_encoder_create sample_rate channels application;
    let '(error, enc) := r in
    store ctx f_encoder enc;;
    failed <- (if decide (error ≠ OPUS_OK) then ret true
               else e <- load ctx f_encoder; ret (bool_decide (e = NULL)));
    if failed : bool then
      free ctx;;
      ret NULL
    else
      store ctx f_sample_rate sample_rate;;
      store ctx f_channels channels;;
      store ctx f_frame_size (sample_rate `quot` 50);;
      ret ctx.

(** Lines 38-40: [return ctx ? ctx->frame_size : 0;] *)
Definition opus_frame_encoder_get_frame_size (ctx : Z) : M Z :=
  if decide (ctx = NULL) then ret 0 else load ctx f_frame_size.

(** Lines 43-67:
<<
    if (!ctx || !ctx->encoder || !pcm_data || !output_buffer) return -1;
    int num_samples = pcm_length / sizeof(opus_int16) / ctx->channels;
    int encoded_bytes = opus_encode(ctx->encoder, pcm_data, num_samples,
                                    output_buffer, output_buffer_size);
    return encoded_bytes;
>>
    ([pcm_data] is passed with a cast to a pointer to [opus_int16].)
    [sizeof] has type [size_t], so both divisions are carried out in
    [size_t]: [pcm_length] and [ctx->channels] are converted to it first,
    and the quotient is converted back to [int]. *)
Definition opus_frame_encode
    (ctx pcm_data pcm_length output_buffer output_buffer_size : Z) : M Z :=
  rejected <- (if decide (ctx = NULL) then ret true
               else e <- load ctx f_encoder;
                    ret (bool_decide (e = NULL) || bool_decide (pcm_data = NULL)
                         || bool_decide (output_buffer = NULL)));
  if rejected : bool then ret (-1)
  else
    ch <- load ctx f_channels;
    q <- size_div (to_size_t pcm_length) sizeof_opus_int16;
    q' <- size_div q (to_size_t ch);
    let num_samples := to_int q' in
    enc <- load ctx f_encoder;
    encoded_bytes <- opus_encode enc pcm_data num_samples output_buffer output_buffer_size;
    ret encoded_bytes.

(** Lines 70-77:
<<
    if (ctx) {
        if (ctx->encoder) opus_encoder_destroy(ctx->encoder);
        free(ctx);
    }
>>  *)
Definition opus_frame_encoder_destroy (ctx : Z) : M unit :=
  if decide (ctx = NULL) then ret tt
  else
    e <- load ctx f_encoder;
    (if decide (e = NULL) then ret tt else opus_encoder_destroy e);;
    free ctx.

(** Lines 80-85:
<<
    if (!ctx || !ctx->encoder) return -1;
    return opus_encoder_ctl(ctx->encoder, OPUS_SET_BITRATE(bitrate));
>>
    The macro expands to the request identifier followed by the value. *)
Definition opus_frame_encoder_set_bitrate (ctx bitrate : Z) : M Z :=
  rejected <- (if decide (ctx = NULL) then ret true
               else e <- load ctx f_encoder; ret (bool_decide (e = NULL)));
  if rejected : bool then ret (-1)
  else
    e <- load ctx f_encoder;
    opus_encoder_ctl e OPUS_SET_BITRATE_REQUEST bitrate.

(** Lines 88-93: the same with [OPUS_SET_COMPLEXITY(complexity)]. *)
Definition opus_frame_encoder_set_complexity (ctx complexity : Z) : M Z :=
  rejected <- (if decide (ctx = NULL) then ret true
               else e <- load ctx f_encoder; ret (bool_decide (e = NULL)));
  if rejected : bool then ret (-1)
  else
    e <- load ctx f_encoder;
    opus_encoder_ctl e OPUS_SET_COMPLEXITY_REQUEST complexity.

End Wrapper.

(** The per-channel sample count [opus_frame_encode] computes from
    [pcm_length] and [ctx->channels], when the division is defined. *)
Definition num_samples (pcm_length ch : Z) : Z :=
  to_int (to_size_t pcm_length / sizeof_opus_int16 / to_size_t ch).

(** The same computation under an ABI whose [size_t] has 64 bits, for
    comparison. *)
Definition num_samples_lp64 (pcm_length ch : Z) : Z :=
  to_int (to_unsigned 64 pcm_length / sizeof_opus_int16 / to_unsigned 64 ch).

(** ** Sequences of calls through the public interface *)

Inductive api_call : Type :=
| Create (sample_rate channels application : Z)
| GetFrameSize (ctx : Z)
| Encode (ctx pcm_data pcm_length output_buffer output_buffer_size : Z)
| Destroy (ctx : Z)
| SetBitrate (ctx bitrate : Z)
| SetComplexity (ctx complexity : Z).

(** The handles a caller holds: those returned by a successful create and
    not yet destroyed, each with the sample rate and channel count it was
    constructed with. *)
Definition track (a : api_call) (r : Z) (held : gmap Z (Z * Z)) : gmap Z (Z * Z) :=
  match a with
  | Create sr ch _ => if decide (r = NULL) then held else <[r := (sr, ch)]> held
  | Destroy ctx => delete ctx held
  | _ => held
  end.

(** One frame of a session is the PCM bytes the caller supplies and the
    capacity of the output buffer; tuning calls may come in between. *)
Inductive action : Type :=
| Bitrate (v : Z)
| Complexity (v : Z)
| Frame (pcm : list byte) (capacity : Z).

Section Sessions.
Context `{engine : CodecEngine}.
Variable pick : gmap Z block → Z.

Definition call (a : api_call) : M Z :=
  match a with
  | Create sr ch app => opus_frame_encoder_create pick sr ch app
  | GetFrameSize ctx => opus_frame_encoder_get_frame_size ctx
  | Encode ctx pcm len out cap => opus_frame_encode ctx pcm len out cap
  | Destroy ctx => opus_frame_encoder_destroy ctx;; ret 0
  | SetBitrate ctx v => opus_frame_encoder_set_bitrate ctx v
  | SetComplexity ctx v => opus_frame_encoder_set_complexity ctx v
  end.

Fixpoint run (calls : list api_call) (held : gmap Z (Z * Z)) : M (gmap Z (Z * Z)) :=
  match calls with
  | [] => ret held
  | a :: rest =>
      r <- call a;
      run rest (track a r held)
  end.

(** The caller's side of one frame: it owns the buffers at [pcm_buf] and
    [out_buf], puts the frame in the first and clears the second. *)
Definition fill (p : Z) (bytes : list byte) : M unit := λ w,
  match heap w !! p with
  | Some (Buf _) => Some (tt, set_heap (<[p := Buf bytes]> (heap w)) w)
  | _ => None
  end.

Definition read (p : Z) : M (list byte) := λ w,
  match heap w !! p with
  | Some (Buf bytes) => Some (bytes, w)
  | _ => None
  end.

(** What the caller observes of one action: the returned [int] and, for a
    frame, the compressed bytes (the first [n] bytes of the output buffer
    when [n] bytes were produced). *)
Definition perform (ctx pcm_buf out_buf : Z) (a : action) : M (Z * list byte) :=
  match a with
  | Bitrate v =>
      r <- opus_frame_encoder_set_bitrate ctx v;
      ret (r, [])
  | Complexity v =>
      r <- opus_frame_encoder_set_complexity ctx v;
      ret (r, [])
  | Frame pcm cap =>
      fill pcm_buf pcm;;
      fill out_buf (replicate (Z.to_nat cap) x00);;
      n <- opus_frame_encode ctx pcm_buf (Z.of_nat (length pcm)) out_buf cap;
      bytes <- read out_buf;
      ret (n, take (Z.to_nat n) bytes)
  end.

Fixpoint session (ctx pcm_buf out_buf : Z) (actions : list action)
  : M (list (Z * list byte)) :=
  match actions with
  | [] => ret []
  | a :: rest =>
      o <- perform ctx pcm_buf out_buf a;
      os <- session ctx pcm_buf out_buf rest;
      ret (o :: os)
  end.

(** A session on a freshly constructed handle. *)
Definition fresh_session (sr ch app pcm_buf out_buf : Z) (actions : list action)
  : M (Z * list (Z * list byte)) :=
  ctx <- opus_frame_encoder_create pick sr ch app;
  if decide (ctx = NULL) then ret (ctx, [])
  else
    os <- session ctx pcm_buf out_buf actions;
    ret (ctx, os).

End Sessions.

(** ** A stand-in engine and allocators, for running the wrapper *)

(** The stand-in keeps the configuration, the two tuning values and the
    number of frames encoded so far; a frame is accepted when it lasts
    20 ms, and its two output bytes depend on the history and the input. *)
Record stub_encoder : Type := mk_stub {
  stub_Fs : Z;
  stub_channels : Z;
  stub_bitrate : Z;
  stub_complexity : Z;
  stub_frames : Z
}.

Definition stub_init (Fs ch app : Z) : Z * option stub_encoder :=
  if ((Fs =? 8000) || (Fs =? 12000) || (Fs =? 16000) || (Fs =? 24000) || (Fs =? 48000))
     && ((ch =? 1) || (ch =? 2))
     && ((app =? 2048) || (app =? 2049) || (app =? 2051))
  then (0, Some (mk_stub Fs ch (-1000) 9 0))
  else (-1, None).

Definition stub_encode (s : stub_encoder) (input : list byte) (n cap : Z)
  : Z * list byte * stub_encoder :=
  if n * 50 =? stub_Fs s then
    if 2 <=? cap then
      (2, [if Z.even (stub_frames s + stub_complexity s) then x78 else x7c;
           default x00 (head input)],
       mk_stub (stub_Fs s) (stub_channels s) (stub_bitrate s) (stub_complexity s)
               (stub_frames s + 1))
    else (-2, [], s)
  else (-1, [], s).

Definition stub_ctl (s : stub_encoder) (request value : Z) : Z * stub_encoder :=
  if request =? 4002 then
    if (500 <=? value) && (512000 >=? value)
    then (0, mk_stub (stub_Fs s) (stub_channels s) value (stub_complexity s) (stub_frames s))
    else (-1, s)
  else if request =? 4010 then
    if (0 <=? value) && (10 >=? value)
    then (0, mk_stub (stub_Fs s) (stub_channels s) (stub_bitrate s) value (stub_frames s))
    else (-1, s)
  else (-5, s).

Definition stub_engine : CodecEngine := {|
  OpusEncoder := stub_encoder;
  OPUS_OK := 0;
  OPUS_ALLOC_FAIL := -7;
  OPUS_SET_BITRATE_REQUEST := 4002;
  OPUS_SET_COMPLEXITY_REQUEST := 4010;
  encoder_init := stub_init;
  encode_frame := stub_encode;
  encoder_ctl := stub_ctl
|}.

(** An allocator that hands out addresses upwards from [base], and one that
    has run out of memory. *)
Definition bump `{engine : CodecEngine} (base : Z) (h : gmap Z block) : Z :=
  base + 16 * Z.of_nat (size h).

Definition exhausted `{engine : CodecEngine} (h : gmap Z block) : Z := NULL.

(** An allocator with one block left, at [p]. *)
Definition last_block `{engine : CodecEngine} (p : Z) (h : gmap Z block) : Z :=
  match h !! p with
  | None => p
  | Some _ => NULL
  end.



(** A caller's memory: a 1920-byte PCM frame at 256 and an output buffer of
    8 bytes at 512. *)
Definition caller_heap : gmap Z (@block stub_engine) :=
  <[512 := Buf (replicate 8 xff)]> (<[256 := Buf (replicate 1920 x01)]> ∅).

Definition w0 : @world stub_engine := mk_world caller_heap [].


(** ** Vocabulary of the statements *)

Section Vocabulary.
Context `{engine : CodecEngine}.

(** The context at [ctx] is live and its field [f] holds [v]. *)
Definition field_is (w : world) (ctx : Z) (f : field) (v : Z) : Prop :=
  ∃ c, heap w !! ctx = Some (Ctx c) ∧ get_field f c = Some v.

(** A valid handle: a non-null pointer to a live context whose encoder field
    is a non-null pointer to a live engine instance in state [st]. *)
Definition valid_handle (w : world) (ctx enc : Z) (st : OpusEncoder) : Prop :=
  ctx ≠ NULL ∧ enc ≠ NULL ∧ field_is w ctx f_encoder enc ∧
  heap w !! enc = Some (Enc st).

(** A caller-owned buffer: a non-null pointer to live bytes. *)
Definition buffer_at (w : world) (p : Z) (bytes : list byte) : Prop :=
  p ≠ NULL ∧ heap w !! p = Some (Buf bytes).

(** The world once [malloc] has returned the non-null block [p]. *)
Definition allocated (p : Z) (w : world) : world :=
  log (EMalloc p) (set_heap (<[p := Ctx indeterminate]> (heap w)) w).

(** The world after the engine has encoded one frame for instance [enc]. *)
Definition encoded (enc pcm n out cap : Z) (st : OpusEncoder)
    (input old : list byte) (w : world) : world :=
  let '(r, written, st') := encode_frame st input n cap in
  log (EEncode enc pcm n out cap r)
      (set_heap (<[out := Buf (overlay written old)]> (<[enc := Enc st']> (heap w))) w).

(** The world after the engine has served one control request. *)
Definition controlled (enc request value : Z) (st : OpusEncoder) (w : world) : world :=
  let '(r, st') := encoder_ctl st request value in
  log (ECtl enc request value r) (set_heap (<[enc := Enc st']> (heap w)) w).

(** The two tuning operations differ in the control identifier only: this is
    their common body. *)
Definition tuning (request ctx value : Z) : M Z :=
  rejected <- (if decide (ctx = NULL) then ret true
               else e <- load ctx f_encoder; ret (bool_decide (e = NULL)));
  if rejected : bool then ret (-1)
  else
    e <- load ctx f_encoder;
    opus_encoder_ctl e request value.

(** The world after a context and its engine instance have been released,
    the instance first. *)
Definition destroyed (ctx enc : Z) (w : world) : world :=
  mk_world (delete ctx (delete enc (heap w))) (trace w ++ [EDestroy enc; EFree ctx]).

(** The context blocks of two heaps are the same, at the same addresses and
    with the same fields. *)
Definition same_contexts (h h' : gmap Z block) : Prop :=
  ∀ p c, h' !! p = Some (Ctx c) ↔ h !! p = Some (Ctx c).

(** The byte buffers of two heaps are the same, the one at [out] apart. *)
Definition same_buffers_except (out : Z) (h h' : gmap Z block) : Prop :=
  ∀ p bytes, p ≠ out → h' !! p = Some (Buf bytes) ↔ h !! p = Some (Buf bytes).

(** All byte buffers of two heaps are the same. *)
Definition same_buffers (h h' : gmap Z block) : Prop :=
  ∀ p bytes, h' !! p = Some (Buf bytes) ↔ h !! p = Some (Buf bytes).

(** A fully constructed context for the arguments [sr] and [ch]. *)
Definition constructed (enc sr ch : Z) : opus_encoder_context :=
  mk_context (Some enc) (Some sr) (Some ch) (Some (sr `quot` 50)).

(** The invariant of the public interface.  [held] maps each handle the
    caller holds to the arguments it was constructed with.  Every context
    block of the heap is one of these and is fully constructed, with a
    non-null pointer to a live engine instance; no two contexts share an
    instance. *)
Definition fully_valid (w : world) (held : gmap Z (Z * Z)) : Prop :=
  (∀ p c, heap w !! p = Some (Ctx c) →
     ∃ sr ch enc st, held !! p = Some (sr, ch) ∧ c = constructed enc sr ch ∧
                     enc ≠ NULL ∧ heap w !! enc = Some (Enc st)) ∧
  (∀ p, is_Some (held !! p) → p ≠ NULL ∧ ∃ c, heap w !! p = Some (Ctx c)) ∧
  (∀ p q c d enc, heap w !! p = Some (Ctx c) → heap w !! q = Some (Ctx d) →
     encoder c = Some enc → encoder d = Some enc → p = q).

(** A heap without context blocks: nothing has been created yet. *)
Definition no_contexts (w : world) : Prop :=
  ∀ p c, heap w !! p ≠ Some (Ctx c).

(** What a caller observes of one action on an instance in state [st]
    behind a context of [ch] channels, and the next state of the instance:
    a function of the engine alone, with no heap and no pointer in it. *)
Definition observe (ch : Z) (st : OpusEncoder) (a : action)
  : option (Z * list byte * OpusEncoder) :=
  match a with
  | Bitrate v =>
      let '(r, st') := encoder_ctl st OPUS_SET_BITRATE_REQUEST v in
      Some (r, [], st')
  | Complexity v =>
      let '(r, st') := encoder_ctl st OPUS_SET_COMPLEXITY_REQUEST v in
      Some (r, [], st')
  | Frame pcm cap =>
      if decide (to_size_t ch = 0) then None
      else
        let '(r, written, st') :=
          encode_frame st pcm (num_samples (Z.of_nat (length pcm)) ch) cap in
        Some (r, take (Z.to_nat r) (overlay written (replicate (Z.to_nat cap) x00)), st')
  end.

Fixpoint reference_outputs (ch : Z) (st : OpusEncoder) (actions : list action)
  : option (list (Z * list byte)) :=
  match actions with
  | [] => Some []
  | a :: rest =>
      match observe ch st a with
      | Some (r, bytes, st') =>
          match reference_outputs ch st' rest with
          | Some os => Some ((r, bytes) :: os)
          | None => None
          end
      | None => None
      end
  end.

(** A handle and the caller's two buffers, ready for a session. *)
Definition session_ready (w : world) (ctx pcm_buf out_buf enc ch : Z)
    (st : OpusEncoder) : Prop :=
  valid_handle w ctx enc st ∧ field_is w ctx f_channels ch ∧
  (∃ bytes, buffer_at w pcm_buf bytes) ∧ (∃ bytes, buffer_at w out_buf bytes) ∧
  pcm_buf ≠ out_buf.

(** The handle a call is made on; create takes none. *)
Definition handle_of (a : api_call) : option Z :=
  match a with
  | Create _ _ _ => None
  | GetFrameSize ctx | Encode ctx _ _ _ _ | Destroy ctx
  | SetBitrate ctx _ | SetComplexity ctx _ => Some ctx
  end.



(** The engine hands back no instance together with a non-success status:
    what the reference engine promises of its constructor. *)
Definition instance_only_on_success : Prop :=
  ∀ sr ch app error st, encoder_init sr ch app = (error, Some st) → error = OPUS_OK.

(** Every engine instance of the heap is the instance of some context. *)
Definition no_stray_instances (w : world) : Prop :=
  ∀ e s, heap w !! e = Some (Enc s) →
         ∃ p c, heap w !! p = Some (Ctx c) ∧ encoder c = Some e.

(** Two calls in a row, with both results. *)
Definition both {A B} (m1 : M A) (m2 : M B) : M (A * B) :=
  a <- m1;
  b <- m2;
  ret (a, b).

End Vocabulary.

Section Protocol.
Context `{engine : CodecEngine}.
Variable pick : gmap Z block → Z.


End Protocol.

(** The initial state of the stand-in's encoders. *)
Definition stub_fresh (Fs ch : Z) : stub_encoder := mk_stub Fs ch (-1000) 9 0.

(** [w0] after [opus_frame_encoder_create(48000, 1, 2048)] with the
    allocator [bump 4096]: the context at 4128, its instance at 4144. *)
Definition w1 : @world stub_engine :=
  mk_world (<[4128 := Ctx (constructed 4144 48000 1)]>
              (<[4144 := @Enc stub_engine (stub_fresh 48000 1)]> caller_heap))
           [EMalloc 4128; ECreate 48000 1 2048 0 4144].

(** Another caller, with its buffers elsewhere and other bytes in them. *)
Definition w0' : @world stub_engine :=
  mk_world (<[96 := Buf (replicate 16 x2a)]> (<[64 := Buf []]> ∅)) [EFree 0].

(** A context whose encoder field is null: no call of the wrapper builds
    one, but the null checks provide for it. *)
Definition w_null_encoder : @world stub_engine :=
  mk_world (<[4128 := Ctx (constructed NULL 48000 1)]> caller_heap) [].

(** A short session: three frames with two tuning calls in between. *)
Definition three_frames : list action :=
  [Frame (replicate 1920 x02) 8; Complexity 10; Frame (replicate 1920 x03) 8;
   Bitrate 32000; Frame (replicate 1920 x04) 1].

(** [w1] after one 20 ms frame has been encoded from the buffer at 256 into
    the buffer at 512. *)
Definition w2 : @world stub_engine :=
  mk_world (<[512 := Buf (x7c :: x01 :: replicate 6 xff)]>
              (<[4144 := @Enc stub_engine (mk_stub 48000 1 (-1000) 9 1)]> (heap w1)))
           (trace w1 ++ [EEncode 4144 256 960 512 8 2]).

(** What the stand-in produces for [three_frames] on a fresh 48 kHz mono
    encoder: the third frame finds an output buffer that is too small. *)
Definition three_frames_outputs : list (Z * list byte) :=
  [(2, [x7c; x02]); (0, []); (2, [x7c; x03]); (0, []); (-2, [])].

(** [w1] after a second create, [opus_frame_encoder_create(16000, 2, 2049)]
    with the same allocator: the context at 4160, its instance at 4176. *)
Definition w3 : @world stub_engine :=
  mk_world (<[4160 := Ctx (constructed 4176 16000 2)]>
              (<[4176 := @Enc stub_engine (stub_fresh 16000 2)]> (heap w1)))
           (trace w1 ++ [EMalloc 4160; ECreate 16000 2 2049 0 4176]).

(** [w3] for a caller with a second output buffer, at 768. *)
Definition w4 : @world stub_engine :=
  mk_world (<[768 := Buf (replicate 4 x00)]> (heap w3)) (trace w3).

(** A context whose channel count is zero: the stand-in engine accepts no
    such configuration, but nothing in the wrapper rules it out. *)
Definition w_zero_channels : @world stub_engine :=
  mk_world (<[4128 := Ctx (constructed 4144 48000 0)]>
              (<[4144 := @Enc stub_engine (stub_fresh 48000 1)]> caller_heap)) [].

(** A context whose channel count is negative, likewise. *)
Definition w_negative_channels : @world stub_engine :=
  mk_world (<[4128 := Ctx (constructed 4144 48000 (-1))]>
              (<[4144 := @Enc stub_engine (stub_fresh 48000 1)]> caller_heap)) [].


(** A complete life of two encoders, and a run whose encode call declares
    more bytes than its two buffers hold. *)
Definition two_lives : list api_call :=
  [Create 48000 1 2048; Encode 4128 256 1920 512 8; Create 16000 2 2049;
   Destroy 4128; SetComplexity 4160 3; Destroy 4160].


(** * Properties *)

(** ** C integers *)

Lemma to_size_t_nonneg x : 0 ≤ x < 2 ^ 32 → to_size_t x = x.
Proof. intros H. unfold to_size_t, to_unsigned, SIZE_BITS. by apply Z.mod_small. Qed.

Lemma to_size_t_negative x : - 2 ^ 32 ≤ x < 0 → to_size_t x = x + 2 ^ 32.
Proof.
  intros H. unfold to_size_t, to_unsigned, SIZE_BITS.
  symmetry. apply Z.mod_unique_pos with (q := -1); lia.
Qed.

Lemma to_int_nonneg x : 0 ≤ x < 2 ^ 31 → to_int x = x.
Proof.
  intros H. unfold to_int, to_signed, INT_BITS. cbv zeta.
  rewrite Z.mod_small by lia.
  change (2 ^ (32 - 1)) with (2 ^ 31).
  destruct (Z.ltb_spec x (2 ^ 31)); lia.
Qed.

Lemma num_samples_nonneg len ch :
  0 ≤ len < 2 ^ 31 → 0 < ch < 2 ^ 31 → num_samples len ch = (len `quot` 2) `quot` ch.
Proof.
  intros Hl Hc. unfold num_samples, sizeof_opus_int16.
  rewrite !to_size_t_nonneg by lia.
  assert (0 ≤ len / 2) by (apply Z.div_pos; lia).
  rewrite (Z.quot_div_nonneg len 2) by lia.
  rewrite (Z.quot_div_nonneg (len / 2) ch) by lia.
  apply to_int_nonneg.
  split; [apply Z.div_pos; [apply Z.div_pos|]; lia|].
  apply Z.le_lt_trans with (len / 2); [|apply Z.div_lt_upper_bound; lia].
  apply Z.div_le_upper_bound; [lia|]. nia.
Qed.

Lemma num_samples_bounds len ch :
  0 < to_size_t ch → 0 ≤ num_samples len ch < 2 ^ 31.
Proof.
  intros Hc. unfold num_samples, sizeof_opus_int16.
  assert (0 ≤ to_size_t len < 2 ^ 32) as Hl
    by (unfold to_size_t, to_unsigned, SIZE_BITS; apply Z.mod_pos_bound; lia).
  assert (0 ≤ to_size_t len / 2 < 2 ^ 31) as Hq.
  { split; [apply Z.div_pos; lia|apply Z.div_lt_upper_bound; lia]. }
  assert (0 ≤ to_size_t len / 2 / to_size_t ch < 2 ^ 31) as Hq'.
  { split; [apply Z.div_pos; lia|].
    apply Z.le_lt_trans with (to_size_t len / 2); [|lia].
    apply Z.div_le_upper_bound; [lia|]. nia. }
  rewrite to_int_nonneg; lia.
Qed.

Section Properties.
Context `{engine : CodecEngine}.
Variable pick : gmap Z block → Z.
Implicit Types (w : world) (st : OpusEncoder).

(** *** The monad and the primitives *)

Lemma bind_eq {A B} (m : M A) (k : A → M B) w a w' :
  m w = Some (a, w') → bind m k w = k a w'.
Proof. unfold bind. by intros ->. Qed.

Lemma bind_undefined {A B} (m : M A) (k : A → M B) w :
  m w = None → bind m k w = None.
Proof. unfold bind. by intros ->. Qed.

Lemma bind_inv {A B} (m : M A) (k : A → M B) w b w'' :
  bind m k w = Some (b, w'') → ∃ a w', m w = Some (a, w') ∧ k a w' = Some (b, w'').
Proof. unfold bind. destruct (m w) as [[a w']|]; [eauto|done]. Qed.

Lemma load_eq w ctx c f v :
  heap w !! ctx = Some (Ctx c) → get_field f c = Some v → load ctx f w = Some (v, w).
Proof. unfold load. by intros -> ->. Qed.

Lemma load_inv w ctx f v w' :
  load ctx f w = Some (v, w') →
  w' = w ∧ ∃ c, heap w !! ctx = Some (Ctx c) ∧ get_field f c = Some v.
Proof.
  unfold load. destruct (heap w !! ctx) as [[c| |]|] eqn:Hc; try done.
  destruct (get_field f c) eqn:Hf; [|done]. intros [= <- <-]. eauto.
Qed.

Lemma store_eq w ctx c f v :
  heap w !! ctx = Some (Ctx c) →
  store ctx f v w = Some (tt, set_heap (<[ctx := Ctx (set_field f v c)]> (heap w)) w).
Proof. unfold store. by intros ->. Qed.

Lemma size_div_inv w a b q w' :
  size_div a b w = Some (q, w') → b ≠ 0 ∧ q = a / b ∧ w' = w.
Proof. unfold size_div. case_decide; [done|]. by intros [= <- <-]. Qed.

(** The allocator's answer is null or an address that is not live. *)
Lemma fresh_block_spec (h : gmap Z block) :
  fresh_block pick h = NULL ∨ (fresh_block pick h ≠ NULL ∧ h !! fresh_block pick h = None).
Proof.
  unfold fresh_block. case_decide as Hp; [by left|].
  destruct (h !! pick h) eqn:Hl; [by left|]. by right.
Qed.

Lemma malloc_fails w :
  fresh_block pick (heap w) = NULL → malloc pick w = Some (NULL, log (EMalloc NULL) w).
Proof.
  intros Hp. unfold malloc. rewrite Hp. rewrite decide_True by done.
  by destruct w.
Qed.

Lemma malloc_succeeds w :
  fresh_block pick (heap w) ≠ NULL →
  malloc pick w = Some (fresh_block pick (heap w), allocated (fresh_block pick (heap w)) w).
Proof. intros Hp. unfold malloc, allocated. by rewrite decide_False. Qed.

Lemma free_eq w p c :
  p ≠ NULL → heap w !! p = Some (Ctx c) →
  free p w = Some (tt, log (EFree p) (set_heap (delete p (heap w)) w)).
Proof. intros Hp Hc. unfold free. rewrite decide_False by done. by rewrite Hc. Qed.

(** The engine's constructor always returns; it yields no instance, or a
    fresh one. *)
Lemma opus_encoder_create_cases w sr ch app :
  ∃ error enc w', opus_encoder_create pick sr ch app w = Some ((error, enc), w')
    ∧ trace w' = trace w ++ [ECreate sr ch app error enc]
    ∧ ((enc = NULL ∧ heap w' = heap w)
       ∨ (enc ≠ NULL ∧ heap w !! enc = None ∧
          ∃ st, encoder_init sr ch app = (error, Some st) ∧
                heap w' = <[enc := Enc st]> (heap w))).
Proof.
  unfold opus_encoder_create.
  destruct (encoder_init sr ch app) as [error [st|]].
  - destruct (fresh_block_spec (heap w)) as [Hp|[Hp Hfresh]].
    + rewrite Hp, decide_True by done. eexists _, _, _. split; [done|]. split; [done|]. by left.
    + rewrite decide_False by done. eexists _, _, _. split; [done|]. split; [done|].
      right. split_and!; try done. by exists st.
  - eexists _, _, _. split; [done|]. split; [done|]. by left.
Qed.

Lemma opus_encode_inv w enc pcm n data cap r w' :
  opus_encode enc pcm n data cap w = Some (r, w') →
  ∃ s input old,
    heap w !! enc = Some (Enc s) ∧ heap w !! pcm = Some (Buf input) ∧
    heap w !! data = Some (Buf old) ∧
    r = (encode_frame s input n cap).1.1 ∧
    w' = encoded enc pcm n data cap s input old w.
Proof.
  unfold opus_encode, encoded.
  destruct (heap w !! enc) as [[|s|]|]; try done.
  destruct (heap w !! pcm) as [[| |input]|]; try done.
  destruct (heap w !! data) as [[| |old]|]; try done.
  destruct (encode_frame s input n cap) as [[r' written] s'] eqn:Hf.
  intros [= <- <-]. exists s, input, old. by rewrite Hf.
Qed.

(** *** Construction *)

(** [opus_frame_encoder_create] after a successful [malloc]: what the engine
    reports decides between the failure path and the success path. *)
Lemma create_after_malloc w sr ch app error enc w2 :
  let p := fresh_block pick (heap w) in
  p ≠ NULL →
  opus_encoder_create pick sr ch app (allocated p w) = Some ((error, enc), w2) →
  opus_frame_encoder_create pick sr ch app w
  = if decide (error ≠ OPUS_OK ∨ enc = NULL)
    then Some (NULL, log (EFree p) (set_heap (delete p (heap w2)) w2))
    else Some (p, set_heap (<[p := Ctx (mk_context (Some enc) (Some sr) (Some ch)
                                                   (Some (sr `quot` 50)))]> (heap w2)) w2).
Proof.
  intros p Hp Hcreate.
  assert (heap w2 !! p = Some (Ctx indeterminate)) as Hw2.
  { destruct (opus_encoder_create_cases (allocated p w) sr ch app)
      as (error' & enc' & w2' & Heq & _ & Hcases).
    rewrite Hcreate in Heq. injection Heq as <- <- <-.
    destruct Hcases as [[_ ->]|(Hne & Hfresh & st & _ & ->)].
    - apply lookup_insert_eq.
    - rewrite lookup_insert_ne; [apply lookup_insert_eq|].
      intros ->. simpl in Hfresh. by rewrite lookup_insert_eq in Hfresh. }
  unfold opus_frame_encoder_create.
  erewrite bind_eq by by apply malloc_succeeds.
  fold p. rewrite decide_False by done.
  erewrite bind_eq by exact Hcreate. cbv beta iota.
  erewrite bind_eq by by eapply store_eq.
  set (w3 := set_heap _ w2).
  assert (heap w3 !! p = Some (Ctx (set_field f_encoder enc indeterminate))) as Hw3
    by apply lookup_insert_eq.
  erewrite bind_eq; cycle 1.
  { instantiate (1 := w3). instantiate (1 := bool_decide (error ≠ OPUS_OK ∨ enc = NULL)).
    case_decide as Herr.
    - unfold ret. by rewrite bool_decide_eq_true_2 by by left.
    - erewrite bind_eq by by eapply load_eq. unfold ret. do 2 f_equal.
      apply bool_decide_ext. tauto. }
  case_bool_decide as Hfail.
  - rewrite decide_True by done.
    erewrite bind_eq by by eapply free_eq. unfold ret. do 3 f_equal.
    subst w3. simpl. by rewrite delete_insert_eq.
  - rewrite decide_False by done.
    erewrite bind_eq by by eapply store_eq.
    erewrite bind_eq by (eapply store_eq; apply lookup_insert_eq).
    erewrite bind_eq by (eapply store_eq; apply lookup_insert_eq).
    unfold ret. do 2 f_equal. subst w3. simpl.
    by rewrite !insert_insert_eq.
Qed.

Lemma create_cases w sr ch app :
  ∃ r w', opus_frame_encoder_create pick sr ch app w = Some (r, w') ∧
    ((r = NULL ∧ fresh_block pick (heap w) = NULL ∧ w' = log (EMalloc NULL) w)
     ∨ (r = NULL ∧ ∃ p error enc,
          p = fresh_block pick (heap w) ∧
          (∃ w2, opus_encoder_create pick sr ch app (allocated p w)
                 = Some ((error, enc), w2)) ∧
          (error ≠ OPUS_OK ∨ enc = NULL) ∧
          p ≠ NULL ∧ heap w !! p = None ∧
          trace w' = trace w ++ [EMalloc p; ECreate sr ch app error enc; EFree p] ∧
          ((enc = NULL ∧ heap w' = heap w) ∨
           (enc ≠ NULL ∧ enc ≠ p ∧ heap w !! enc = None ∧
            ∃ st, encoder_init sr ch app = (error, Some st) ∧
                  heap w' = <[enc := Enc st]> (heap w))))
     ∨ (r ≠ NULL ∧ heap w !! r = None ∧ ∃ enc st,
          r = fresh_block pick (heap w) ∧
          (∃ w2, opus_encoder_create pick sr ch app (allocated r w)
                 = Some ((OPUS_OK, enc), w2)) ∧
          enc ≠ NULL ∧ enc ≠ r ∧ heap w !! enc = None ∧
          encoder_init sr ch app = (OPUS_OK, Some st) ∧
          trace w' = trace w ++ [EMalloc r; ECreate sr ch app OPUS_OK enc] ∧
          heap w' = <[r := Ctx (constructed enc sr ch)]> (<[enc := Enc st]> (heap w)))).
Proof.
  destruct (fresh_block_spec (heap w)) as [Hp|[Hp Hfresh]].
  { exists NULL, (log (EMalloc NULL) w). split; [|by left].
    unfold opus_frame_encoder_create. erewrite bind_eq by by apply malloc_fails. done. }
  set (p := fresh_block pick (heap w)) in *.
  destruct (opus_encoder_create_cases (allocated p w) sr ch app)
    as (error & enc & w2 & Hcreate & Htrace & Hheap).
  rewrite (create_after_malloc w sr ch app error enc w2 Hp Hcreate). fold p.
  simpl in Htrace, Hheap.
  destruct Hheap as [[-> Hh]|(Hne & Hnew & st & Hinit & Hh)].
  - rewrite decide_True by by right.
    eexists _, _. split; [done|]. right; left. split; [done|].
    exists p, error, NULL. split_and!; try done; [by exists w2|by right| |].
    + simpl. rewrite Htrace. by rewrite <- !app_assoc.
    + left. split; [done|]. simpl. rewrite Hh, delete_insert_eq. by apply delete_id.
  - assert (enc ≠ p) as Hep.
    { intros ->. by rewrite lookup_insert_eq in Hnew. }
    rewrite lookup_insert_ne in Hnew by done.
    destruct (decide (error = OPUS_OK)) as [->|Herr].
    + rewrite decide_False by (intros [?|?]; done).
      eexists _, _. split; [done|]. right; right.
      split; [done|]. split; [done|].
      exists enc, st. split_and!; try done; [by exists w2| |].
      * simpl. rewrite Htrace. by rewrite <- !app_assoc.
      * simpl. rewrite Hh. rewrite (insert_insert_ne _ enc p) by done.
        by rewrite insert_insert_eq.
    + rewrite decide_True by by left.
      eexists _, _. split; [done|]. right; left. split; [done|].
      exists p, error, enc. split_and!; try done; [by exists w2|by left| |].
      * simpl. rewrite Htrace. by rewrite <- !app_assoc.
      * right. split_and!; try done. exists st. split; [done|].
        simpl. rewrite Hh. rewrite delete_insert_ne by done.
        rewrite delete_insert_eq. by rewrite delete_id.
Qed.

(** Whatever create does, the blocks that were live are as they were. *)
Lemma create_keeps_blocks w sr ch app r w' p b :
  opus_frame_encoder_create pick sr ch app w = Some (r, w') →
  heap w !! p = Some b → heap w' !! p = Some b.
Proof.
  intros Hcreate Hp.
  destruct (create_cases w sr ch app) as (r' & w'' & Heq & Hcases).
  rewrite Hcreate in Heq. injection Heq as <- <-.
  destruct Hcases as [(_ & _ & ->)
                     |[(_ & _ & _ & enc & _ & _ & _ & _ & _ & _
                        & [[_ ->]|(_ & _ & Hefresh & st & _ & ->)])
                      |(_ & Hfresh & enc & st & _ & _ & _ & _ & Hefresh & _ & _ & ->)]];
    [done|done| |].
  - by rewrite lookup_insert_ne by (intros ->; by rewrite Hefresh in Hp).
  - rewrite lookup_insert_ne by (intros ->; by rewrite Hfresh in Hp).
    by rewrite lookup_insert_ne by (intros ->; by rewrite Hefresh in Hp).
Qed.

(** *** Frame size query *)

Lemma get_frame_size_null w : opus_frame_encoder_get_frame_size NULL w = Some (0, w).
Proof. done. Qed.

Lemma get_frame_size_cached w ctx v :
  ctx ≠ NULL → field_is w ctx f_frame_size v →
  opus_frame_encoder_get_frame_size ctx w = Some (v, w).
Proof.
  intros Hctx (c & Hc & Hv). unfold opus_frame_encoder_get_frame_size.
  rewrite decide_False by done. by eapply load_eq.
Qed.

Lemma get_frame_size_inv w ctx r w' :
  opus_frame_encoder_get_frame_size ctx w = Some (r, w') → w' = w.
Proof.
  unfold opus_frame_encoder_get_frame_size. case_decide.
  - by intros [= <- <-].
  - by intros [-> _]%load_inv.
Qed.

(** *** Frame encode *)

Lemma encode_reaches_engine w ctx enc ch st pcm input out old len cap :
  valid_handle w ctx enc st → field_is w ctx f_channels ch →
  buffer_at w pcm input → buffer_at w out old →
  to_size_t ch ≠ 0 →
  opus_frame_encode ctx pcm len out cap w
  = Some ((encode_frame st input (num_samples len ch) cap).1.1,
          encoded enc pcm (num_samples len ch) out cap st input old w).
Proof.
  intros (Hctx & Henc & (c & Hc & He) & Hst) (c' & Hc' & Hch) [Hpcm Hin] [Hout Hold] Hz.
  rewrite Hc in Hc'. injection Hc' as <-.
  unfold opus_frame_encode.
  erewrite bind_eq; cycle 1.
  { rewrite decide_False by done. erewrite bind_eq by by eapply load_eq. done. }
  rewrite !bool_decide_eq_false_2 by done. cbn [orb].
  erewrite bind_eq by by eapply load_eq.
  unfold size_div at 1. rewrite decide_False by done.
  erewrite bind_eq by done.
  unfold size_div. rewrite decide_False by done.
  erewrite bind_eq by done.
  erewrite bind_eq by by eapply load_eq.
  fold (num_samples len ch).
  unfold bind, opus_encode, encoded, ret. rewrite Hst, Hin, Hold.
  by destruct (encode_frame _ _ _ _) as [[r written] st'].
Qed.

Lemma encode_rejects w ctx pcm len out cap :
  ctx = NULL ∨
  (∃ c e, heap w !! ctx = Some (Ctx c) ∧ encoder c = Some e ∧
          (e = NULL ∨ pcm = NULL ∨ out = NULL)) →
  opus_frame_encode ctx pcm len out cap w = Some (-1, w).
Proof.
  intros Hcases. unfold opus_frame_encode.
  destruct (decide (ctx = NULL)) as [->|Hctx]; [done|].
  destruct Hcases as [?|(c & e & Hc & He & Hnull)]; [done|].
  erewrite bind_eq; cycle 1.
  { erewrite bind_eq by by eapply load_eq. done. }
  assert (bool_decide (e = NULL) || bool_decide (pcm = NULL)
          || bool_decide (out = NULL) = true) as ->; [|done].
  rewrite !orb_true_iff, !bool_decide_eq_true. tauto.
Qed.

Lemma encode_inv w ctx pcm len out cap r w' :
  opus_frame_encode ctx pcm len out cap w = Some (r, w') →
  (r = -1 ∧ w' = w) ∨
  (∃ enc ch st input old,
      valid_handle w ctx enc st ∧ field_is w ctx f_channels ch ∧
      buffer_at w pcm input ∧ buffer_at w out old ∧
      to_size_t ch ≠ 0 ∧
      r = (encode_frame st input (num_samples len ch) cap).1.1 ∧
      w' = encoded enc pcm (num_samples len ch) out cap st input old w).
Proof.
  intros H.
  destruct (decide (ctx = NULL)) as [->|Hctx].
  { left. rewrite encode_rejects in H by by left. by injection H as <- <-. }
  pose proof H as H0. unfold opus_frame_encode in H.
  apply bind_inv in H as (rej & w1 & Hrej & H).
  rewrite decide_False in Hrej by done.
  apply bind_inv in Hrej as (e & w2 & (-> & c & Hc & He)%load_inv & [= <- <-]).
  destruct (decide (e = NULL ∨ pcm = NULL ∨ out = NULL)) as [Hnull|Hnn].
  { left. rewrite encode_rejects in H0 by (right; eauto). by injection H0 as <- <-. }
  right. rewrite !bool_decide_eq_false_2 in H by tauto. cbn [orb] in H.
  apply bind_inv in H as (ch & ? & (-> & c' & Hc' & Hch)%load_inv & H).
  apply bind_inv in H as (q & ? & (_ & -> & ->)%size_div_inv & H).
  apply bind_inv in H as (q' & ? & (Hz & -> & ->)%size_div_inv & H).
  apply bind_inv in H as (e' & ? & (-> & c'' & Hc'' & He')%load_inv & H).
  apply bind_inv in H as (n & w3 & Henc & [= <- <-]).
  apply opus_encode_inv in Henc as (s & input & old & Hs & Hin & Hold & -> & ->).
  simplify_eq/=.
  exists e, ch, s, input, old. unfold valid_handle, buffer_at, field_is.
  split_and!; try done; try tauto; eauto.
Qed.

(** *** Tuning controls *)

Lemma set_bitrate_tuning ctx v :
  opus_frame_encoder_set_bitrate ctx v = tuning OPUS_SET_BITRATE_REQUEST ctx v.
Proof. reflexivity. Qed.

Lemma set_complexity_tuning ctx v :
  opus_frame_encoder_set_complexity ctx v = tuning OPUS_SET_COMPLEXITY_REQUEST ctx v.
Proof. reflexivity. Qed.

Lemma tuning_rejects w request ctx v :
  ctx = NULL ∨ field_is w ctx f_encoder NULL → tuning request ctx v w = Some (-1, w).
Proof.
  intros Hcases. unfold tuning.
  destruct (decide (ctx = NULL)) as [->|Hctx]; [done|].
  destruct Hcases as [?|(c & Hc & He)]; [done|].
  erewrite bind_eq; cycle 1.
  { erewrite bind_eq by by eapply load_eq. done. }
  by rewrite bool_decide_eq_true_2.
Qed.

Lemma tuning_forwards w request ctx enc st v :
  valid_handle w ctx enc st →
  tuning request ctx v w
  = Some ((encoder_ctl st request v).1, controlled enc request v st w).
Proof.
  intros (Hctx & Henc & (c & Hc & He) & Hst). unfold tuning.
  erewrite bind_eq; cycle 1.
  { rewrite decide_False by done. erewrite bind_eq by by eapply load_eq. done. }
  rewrite bool_decide_eq_false_2 by done.
  erewrite bind_eq by by eapply load_eq.
  unfold opus_encoder_ctl, controlled. rewrite Hst.
  by destruct (encoder_ctl st request v).
Qed.

Lemma tuning_inv w request ctx v r w' :
  tuning request ctx v w = Some (r, w') →
  (r = -1 ∧ w' = w) ∨
  (∃ enc st, valid_handle w ctx enc st ∧
             r = (encoder_ctl st request v).1 ∧ w' = controlled enc request v st w).
Proof.
  intros H.
  destruct (decide (ctx = NULL)) as [->|Hctx].
  { left. rewrite tuning_rejects in H by by left. by injection H as <- <-. }
  pose proof H as H0. unfold tuning in H.
  apply bind_inv in H as (rej & w1 & Hrej & H).
  rewrite decide_False in Hrej by done.
  apply bind_inv in Hrej as (e & w2 & (-> & c & Hc & He)%load_inv & [= <- <-]).
  destruct (decide (e = NULL)) as [->|Hnn].
  { left. rewrite tuning_rejects in H0 by (right; by exists c). by injection H0 as <- <-. }
  right. unfold opus_encoder_ctl in H0.
  destruct (heap w !! e) as [[|s|]|] eqn:Hs.
  4: { rewrite bool_decide_eq_false_2 in H by done.
       apply bind_inv in H as (e' & ? & (-> & c' & Hc' & He')%load_inv & H).
       simplify_eq. unfold opus_encoder_ctl in H. by rewrite Hs in H. }
  all: rewrite bool_decide_eq_false_2 in H by done;
       apply bind_inv in H as (e' & ? & (-> & c' & Hc' & He')%load_inv & H);
       simplify_eq; unfold opus_encoder_ctl in H; rewrite Hs in H; try done.
  assert (valid_handle w ctx e s) as Hv by (split_and!; try done; by exists c).
  rewrite (tuning_forwards _ _ _ _ _ _ Hv) in H0. injection H0 as <- <-. eauto.
Qed.

(** *** Destruction *)

Lemma destroy_null w : opus_frame_encoder_destroy NULL w = Some (tt, w).
Proof. done. Qed.

Lemma destroy_valid w ctx enc st :
  valid_handle w ctx enc st →
  opus_frame_encoder_destroy ctx w = Some (tt, destroyed ctx enc w).
Proof.
  intros (Hctx & Henc & (c & Hc & He) & Hst). unfold opus_frame_encoder_destroy.
  rewrite decide_False by done.
  erewrite bind_eq by by eapply load_eq.
  rewrite decide_False by done.
  erewrite bind_eq; cycle 1.
  { unfold opus_encoder_destroy. by rewrite Hst. }
  erewrite free_eq; [|done|].
  - unfold destroyed, log, set_heap. simpl. by rewrite <- app_assoc.
  - simpl. rewrite lookup_delete_ne; [done|]. intros ->. by rewrite Hst in Hc.
Qed.

Lemma destroy_without_instance w ctx :
  ctx ≠ NULL → field_is w ctx f_encoder NULL →
  opus_frame_encoder_destroy ctx w
  = Some (tt, mk_world (delete ctx (heap w)) (trace w ++ [EFree ctx])).
Proof.
  intros Hctx (c & Hc & He). unfold opus_frame_encoder_destroy.
  rewrite decide_False by done.
  erewrite bind_eq by by eapply load_eq.
  rewrite decide_True by done.
  erewrite bind_eq by done.
  by erewrite free_eq.
Qed.

Lemma destroy_inv w ctx w' :
  opus_frame_encoder_destroy ctx w = Some (tt, w') →
  (ctx = NULL ∧ w' = w) ∨
  (ctx ≠ NULL ∧ field_is w ctx f_encoder NULL ∧
   w' = mk_world (delete ctx (heap w)) (trace w ++ [EFree ctx])) ∨
  (∃ enc st, valid_handle w ctx enc st ∧ w' = destroyed ctx enc w).
Proof.
  intros H.
  destruct (decide (ctx = NULL)) as [->|Hctx].
  { left. rewrite destroy_null in H. by injection H as <-. }
  right. pose proof H as H0. unfold opus_frame_encoder_destroy in H.
  rewrite decide_False in H by done.
  apply bind_inv in H as (e & ? & (-> & c & Hc & He)%load_inv & H).
  destruct (decide (e = NULL)) as [->|Hnn].
  { left. assert (field_is w ctx f_encoder NULL) as Hf by by exists c.
    rewrite destroy_without_instance in H0 by done. by injection H0 as <-. }
  right. apply bind_inv in H as ([] & w1 & Hd & _).
  unfold opus_encoder_destroy in Hd.
  destruct (heap w !! e) as [[|s|]|] eqn:Hs; try done.
  assert (valid_handle w ctx e s) as Hv by (split_and!; try done; by exists c).
  rewrite (destroy_valid _ _ _ _ Hv) in H0. injection H0 as <-. eauto.
Qed.

(** *** The invariant of the public interface *)

(** The invariant reads the heap only through its context blocks and the
    liveness of engine instances. *)
Lemma fully_valid_frame w w' held :
  same_contexts (heap w) (heap w') →
  (∀ e s, heap w !! e = Some (Enc s) → ∃ s', heap w' !! e = Some (Enc s')) →
  fully_valid w held → fully_valid w' held.
Proof.
  intros Hsame Hkept (HA & HB & HC). split_and!.
  - intros p c Hp. apply Hsame in Hp.
    destruct (HA p c Hp) as (sr & ch & enc & s & Hheld & -> & Hne & Hlive).
    destruct (Hkept _ _ Hlive) as [s' Hs']. by exists sr, ch, enc, s'.
  - intros p Hp. destruct (HB p Hp) as (Hne & c & Hc).
    split; [done|]. exists c. by apply Hsame.
  - intros p q c d enc Hp Hq. apply Hsame in Hp, Hq. by eapply HC.
Qed.

Lemma same_contexts_insert_other (h : gmap Z block) q b :
  (∀ c, h !! q ≠ Some (Ctx c)) → (∀ c, b ≠ Ctx c) →
  same_contexts h (<[q := b]> h).
Proof.
  intros Hold Hnew p c. destruct (decide (p = q)) as [->|Hpq].
  - rewrite lookup_insert_eq. split; [intros [= ->]; by destruct (Hnew c)|].
    intros Hc. by destruct (Hold c).
  - by rewrite lookup_insert_ne.
Qed.

Lemma same_contexts_trans (h1 h2 h3 : gmap Z block) :
  same_contexts h1 h2 → same_contexts h2 h3 → same_contexts h1 h3.
Proof. intros H12 H23 p c. etrans; [apply H23|apply H12]. Qed.

Lemma same_contexts_refl (h : gmap Z block) : same_contexts h h.
Proof. by intros p c. Qed.

Lemma encoded_heap enc pcm n out cap st input old w :
  ∃ r written st',
    encode_frame st input n cap = (r, written, st') ∧
    trace (encoded enc pcm n out cap st input old w)
    = trace w ++ [EEncode enc pcm n out cap r] ∧
    heap (encoded enc pcm n out cap st input old w)
    = <[out := Buf (overlay written old)]> (<[enc := Enc st']> (heap w)).
Proof.
  unfold encoded. destruct (encode_frame st input n cap) as [[r written] st'].
  by exists r, written, st'.
Qed.

Lemma controlled_heap enc request v st w :
  ∃ r st',
    encoder_ctl st request v = (r, st') ∧
    trace (controlled enc request v st w) = trace w ++ [ECtl enc request v r] ∧
    heap (controlled enc request v st w) = <[enc := Enc st']> (heap w).
Proof.
  unfold controlled. destruct (encoder_ctl st request v) as [r st'].
  by exists r, st'.
Qed.

Lemma encoded_same_contexts enc pcm n out cap st input old w :
  heap w !! enc = Some (Enc st) → heap w !! out = Some (Buf old) →
  same_contexts (heap w) (heap (encoded enc pcm n out cap st input old w)).
Proof.
  intros Hst Hold.
  destruct (encoded_heap enc pcm n out cap st input old w) as (r & wr & st' & _ & _ & ->).
  eapply same_contexts_trans.
  - apply (same_contexts_insert_other _ enc (Enc st')); [by rewrite Hst|done].
  - apply same_contexts_insert_other; [|done].
    intros c. rewrite lookup_insert_ne; [by rewrite Hold|].
    intros ->. by rewrite Hst in Hold.
Qed.

Lemma encoded_instances_kept enc pcm n out cap st input old w e s :
  heap w !! out = Some (Buf old) →
  heap w !! e = Some (Enc s) →
  ∃ s', heap (encoded enc pcm n out cap st input old w) !! e = Some (Enc s').
Proof.
  intros Hold Hs.
  destruct (encoded_heap enc pcm n out cap st input old w) as (r & wr & st' & _ & _ & ->).
  rewrite lookup_insert_ne by (intros ->; by rewrite Hs in Hold).
  destruct (decide (e = enc)) as [->|Hne].
  - rewrite lookup_insert_eq. eauto.
  - rewrite lookup_insert_ne by done. eauto.
Qed.

Lemma controlled_same_contexts enc request v st w :
  heap w !! enc = Some (Enc st) →
  same_contexts (heap w) (heap (controlled enc request v st w)).
Proof.
  intros Hst. destruct (controlled_heap enc request v st w) as (r & st' & _ & _ & ->).
  apply same_contexts_insert_other; [by rewrite Hst|done].
Qed.

Lemma controlled_instances_kept enc request v st w e s :
  heap w !! e = Some (Enc s) →
  ∃ s', heap (controlled enc request v st w) !! e = Some (Enc s').
Proof.
  intros Hs. destruct (controlled_heap enc request v st w) as (r & st' & _ & _ & ->).
  destruct (decide (e = enc)) as [->|Hne].
  - rewrite lookup_insert_eq. eauto.
  - rewrite lookup_insert_ne by done. eauto.
Qed.

Lemma fully_valid_created w w' held r enc st sr ch :
  r ≠ NULL → heap w !! r = None → enc ≠ NULL → enc ≠ r → heap w !! enc = None →
  heap w' = <[r := Ctx (constructed enc sr ch)]> (<[enc := Enc st]> (heap w)) →
  fully_valid w held → fully_valid w' (<[r := (sr, ch)]> held).
Proof.
  intros Hr Hrfresh Henc Hne Hefresh Hh (HA & HB & HC).
  assert (∀ p c, p ≠ r → heap w' !! p = Some (Ctx c) → heap w !! p = Some (Ctx c)) as Hold.
  { intros p c Hpr. rewrite Hh, lookup_insert_ne by done.
    destruct (decide (p = enc)) as [->|Hpe]; [by rewrite lookup_insert_eq|].
    by rewrite lookup_insert_ne. }
  assert (∀ e s, heap w !! e = Some (Enc s) → heap w' !! e = Some (Enc s)) as Hkept.
  { intros e s Hs. rewrite Hh.
    rewrite lookup_insert_ne by (intros ->; by rewrite Hrfresh in Hs).
    rewrite lookup_insert_ne by (intros ->; by rewrite Hefresh in Hs). done. }
  assert (heap w' !! r = Some (Ctx (constructed enc sr ch))) as Hnew
    by (rewrite Hh; apply lookup_insert_eq).
  assert (heap w' !! enc = Some (Enc st)) as Hinst.
  { rewrite Hh, lookup_insert_ne by done. apply lookup_insert_eq. }
  split_and!.
  - intros p c Hp. destruct (decide (p = r)) as [->|Hpr].
    + rewrite Hnew in Hp. injection Hp as <-.
      exists sr, ch, enc, st. by rewrite lookup_insert_eq.
    + destruct (HA p c (Hold p c Hpr Hp)) as (sr' & ch' & e & s & Hheld & -> & He & Hlive).
      exists sr', ch', e, s. rewrite lookup_insert_ne by done. eauto.
  - intros p Hp. destruct (decide (p = r)) as [->|Hpr]; [eauto|].
    rewrite lookup_insert_ne in Hp by done.
    destruct (HB p Hp) as (Hnn & c & Hc). split; [done|]. exists c.
    rewrite Hh, lookup_insert_ne by done.
    rewrite lookup_insert_ne by (intros ->; by rewrite Hefresh in Hc). done.
  - assert (∀ p c, p ≠ r → heap w' !! p = Some (Ctx c) → encoder c ≠ Some enc) as Hexcl.
    { intros p c Hpr Hp Hc. apply Hold in Hp; [|done].
      destruct (HA p c Hp) as (? & ? & e & s & _ & -> & _ & Hlive).
      simpl in Hc. injection Hc as ->. by rewrite Hefresh in Hlive. }
    intros p q c d e Hp Hq Hc Hd.
    destruct (decide (p = r)) as [->|Hpr], (decide (q = r)) as [->|Hqr]; [done|..].
    + rewrite Hnew in Hp. injection Hp as <-. simpl in Hc. injection Hc as <-.
      by destruct (Hexcl q d Hqr Hq).
    + rewrite Hnew in Hq. injection Hq as <-. simpl in Hd. injection Hd as <-.
      by destruct (Hexcl p c Hpr Hp).
    + eapply HC; eauto.
Qed.

Lemma fully_valid_destroyed w held ctx enc st :
  valid_handle w ctx enc st →
  fully_valid w held → fully_valid (destroyed ctx enc w) (delete ctx held).
Proof.
  intros (Hctx & Henc & (c0 & Hc0 & He0) & Hst) (HA & HB & HC).
  assert (ctx ≠ enc) as Hce by (intros ->; by rewrite Hst in Hc0).
  assert (∀ p b, heap (destroyed ctx enc w) !! p = Some b →
                 p ≠ ctx ∧ p ≠ enc ∧ heap w !! p = Some b) as Hsub.
  { intros p b. unfold destroyed. simpl.
    rewrite lookup_delete_Some. intros [? Hp].
    apply lookup_delete_Some in Hp as [? ?]. done. }
  assert (∀ p b, p ≠ ctx → p ≠ enc → heap w !! p = Some b →
                 heap (destroyed ctx enc w) !! p = Some b) as Hsup.
  { intros p b ? ? Hp. unfold destroyed. simpl.
    by rewrite !lookup_delete_ne by done. }
  split_and!.
  - intros p c Hp. apply Hsub in Hp as (Hpc & Hpe & Hp).
    destruct (HA p c Hp) as (sr & ch & e & s & Hheld & -> & He & Hlive).
    exists sr, ch, e, s. rewrite lookup_delete_ne by done. split_and!; try done.
    apply Hsup; [| |done].
    + intros ->. by rewrite Hc0 in Hlive.
    + intros ->. apply Hpc. by eapply (HC p ctx).
  - intros p Hp. apply lookup_delete_is_Some in Hp as [Hpc Hp].
    destruct (HB p Hp) as (Hnn & c & Hc). split; [done|]. exists c.
    apply Hsup; [done| |done]. intros ->. by rewrite Hst in Hc.
  - intros p q c d e Hp Hq. apply Hsub in Hp as (_ & _ & Hp).
    apply Hsub in Hq as (_ & _ & Hq). by eapply HC.
Qed.

Lemma fully_valid_handle w held ctx e :
  fully_valid w held → field_is w ctx f_encoder e → e ≠ NULL.
Proof.
  intros (HA & _ & _) (c & Hc & He).
  destruct (HA ctx c Hc) as (? & ? & enc & ? & _ & -> & Hne & _).
  simpl in He. by injection He as <-.
Qed.

Lemma call_preserves_fully_valid w held a r w' :
  fully_valid w held → call pick a w = Some (r, w') →
  fully_valid w' (track a r held).
Proof.
  intros Hinv Hcall. destruct a as [sr ch app|ctx|ctx pcm len out cap|ctx|ctx v|ctx v];
    simpl in Hcall.
  - destruct (create_cases w sr ch app) as (r' & w'' & Heq & Hcases).
    rewrite Hcall in Heq. injection Heq as <- <-. simpl.
    destruct Hcases as [(-> & _ & ->)|[(-> & p & error & enc & _ & _ & _ & _ & _ & _ & Hleft)
                                       |(Hr & Hfresh & enc & st & _ & _ & ? & ? & ? & _ & _ & Hh)]].
    + by rewrite decide_True.
    + rewrite decide_True by done.
      revert Hinv. apply fully_valid_frame;
        destruct Hleft as [[_ Hh]|(_ & _ & Hefresh & st & _ & Hh)]; rewrite Hh.
      * apply same_contexts_refl.
      * apply same_contexts_insert_other; [by rewrite Hefresh|done].
      * eauto.
      * intros e s Hs. exists s.
        by rewrite lookup_insert_ne by (intros ->; by rewrite Hefresh in Hs).
    + rewrite decide_False by done. by apply (fully_valid_created w _ held r enc st sr ch).
  - apply get_frame_size_inv in Hcall as ->. done.
  - apply encode_inv in Hcall
      as [[_ ->]|(enc & ch & st & input & old & Hv & _ & _ & [_ Hold] & _ & _ & ->)]; [done|].
    destruct Hv as (_ & _ & _ & Hst). revert Hinv. apply fully_valid_frame.
    + by apply encoded_same_contexts.
    + intros e s. by apply encoded_instances_kept.
  - apply bind_inv in Hcall as ([] & w1 & Hd & [= <- <-]). simpl.
    apply destroy_inv in Hd as [[-> ->]|[(Hctx & Hf & ->)|(enc & st & Hv & ->)]].
    + rewrite delete_id; [done|]. destruct Hinv as (_ & HB & _).
      destruct (held !! NULL) eqn:Hn; [|done].
      by destruct (HB NULL (mk_is_Some _ _ Hn)).
    + by destruct (fully_valid_handle _ _ _ _ Hinv Hf).
    + by apply (fully_valid_destroyed w held ctx enc st).
  - rewrite set_bitrate_tuning in Hcall.
    apply tuning_inv in Hcall as [[_ ->]|(enc & st & (_ & _ & _ & Hst) & _ & ->)]; [done|].
    revert Hinv. apply fully_valid_frame.
    + by apply controlled_same_contexts.
    + intros e s. apply controlled_instances_kept.
  - rewrite set_complexity_tuning in Hcall.
    apply tuning_inv in Hcall as [[_ ->]|(enc & st & (_ & _ & _ & Hst) & _ & ->)]; [done|].
    revert Hinv. apply fully_valid_frame.
    + by apply controlled_same_contexts.
    + intros e s. apply controlled_instances_kept.
Qed.

Lemma no_contexts_fully_valid w : no_contexts w → fully_valid w ∅.
Proof.
  intros Hno. split_and!.
  - intros p c Hp. by destruct (Hno p c).
  - intros p [x Hx]. by rewrite lookup_empty in Hx.
  - intros p q c d enc Hp. by destruct (Hno p c).
Qed.


(** *** Sessions *)

Lemma fill_eq w p old bytes :
  heap w !! p = Some (Buf old) →
  fill p bytes w = Some (tt, set_heap (<[p := Buf bytes]> (heap w)) w).
Proof. unfold fill. by intros ->. Qed.

Lemma read_eq w p bytes :
  heap w !! p = Some (Buf bytes) → read p w = Some (bytes, w).
Proof. unfold read. by intros ->. Qed.

(** Writing a caller's buffer leaves handles as they are. *)
Lemma session_ready_fill w ctx pcm_buf out_buf enc ch st p old bytes :
  heap w !! p = Some (Buf old) →
  session_ready w ctx pcm_buf out_buf enc ch st →
  session_ready (set_heap (<[p := Buf bytes]> (heap w)) w) ctx pcm_buf out_buf enc ch st.
Proof.
  intros Hp ((Hctx & Henc & (c & Hc & He) & Hst) & (c' & Hc' & Hch)
             & (bi & Hpn & Hpcm) & (bo & Hon & Hout) & Hne).
  assert (p ≠ ctx) by (intros ->; by rewrite Hc in Hp).
  assert (p ≠ enc) by (intros ->; by rewrite Hst in Hp).
  unfold session_ready, valid_handle, field_is, buffer_at. simpl.
  rewrite !(lookup_insert_ne _ p ctx), !(lookup_insert_ne _ p enc) by done.
  split_and!; try done; eauto.
  - destruct (decide (p = pcm_buf)) as [->|?].
    + rewrite lookup_insert_eq. eauto.
    + rewrite lookup_insert_ne by done. eauto.
  - destruct (decide (p = out_buf)) as [->|?].
    + rewrite lookup_insert_eq. eauto.
    + rewrite lookup_insert_ne by done. eauto.
Qed.

Lemma session_ready_encoded w ctx pcm_buf out_buf enc ch st n cap input old :
  buffer_at w pcm_buf input → buffer_at w out_buf old →
  session_ready w ctx pcm_buf out_buf enc ch st →
  ∃ r written st',
    encode_frame st input n cap = (r, written, st') ∧
    heap (encoded enc pcm_buf n out_buf cap st input old w) !! out_buf
    = Some (Buf (overlay written old)) ∧
    session_ready (encoded enc pcm_buf n out_buf cap st input old w)
                  ctx pcm_buf out_buf enc ch st'.
Proof.
  intros [_ Hin] [_ Hold] ((Hctx & Henc & (c & Hc & He) & Hst) & (c' & Hc' & Hch)
             & (bi & Hpn & Hpcm) & (bo & Hon & Hout) & Hne).
  destruct (encoded_heap enc pcm_buf n out_buf cap st input old w)
    as (r & written & st' & Hf & _ & Hh).
  exists r, written, st'. split; [done|].
  assert (out_buf ≠ ctx) by (intros ->; by rewrite Hc in Hout).
  assert (out_buf ≠ enc) by (intros ->; by rewrite Hst in Hout).
  assert (enc ≠ ctx) by (intros ->; by rewrite Hc in Hst).
  assert (enc ≠ pcm_buf) by (intros ->; by rewrite Hst in Hpcm).
  unfold session_ready, valid_handle, field_is, buffer_at. rewrite Hh.
  rewrite lookup_insert_eq.
  rewrite !(lookup_insert_ne _ out_buf ctx), !(lookup_insert_ne _ out_buf enc) by done.
  rewrite (lookup_insert_ne _ out_buf pcm_buf) by done.
  rewrite lookup_insert_eq.
  rewrite !(lookup_insert_ne _ enc ctx), (lookup_insert_ne _ enc pcm_buf) by done.
  split_and!; try done; eauto.
Qed.

Lemma session_ready_controlled w ctx pcm_buf out_buf enc ch st request v :
  session_ready w ctx pcm_buf out_buf enc ch st →
  ∃ r st',
    encoder_ctl st request v = (r, st') ∧
    session_ready (controlled enc request v st w) ctx pcm_buf out_buf enc ch st'.
Proof.
  intros ((Hctx & Henc & (c & Hc & He) & Hst) & (c' & Hc' & Hch)
             & (bi & Hpn & Hpcm) & (bo & Hon & Hout) & Hne).
  destruct (controlled_heap enc request v st w) as (r & st' & Hf & _ & Hh).
  exists r, st'. split; [done|].
  assert (enc ≠ ctx) by (intros ->; by rewrite Hc in Hst).
  assert (enc ≠ pcm_buf) by (intros ->; by rewrite Hst in Hpcm).
  assert (enc ≠ out_buf) by (intros ->; by rewrite Hst in Hout).
  unfold session_ready, valid_handle, field_is, buffer_at. rewrite Hh.
  rewrite lookup_insert_eq.
  rewrite !(lookup_insert_ne _ enc ctx), (lookup_insert_ne _ enc pcm_buf),
    (lookup_insert_ne _ enc out_buf) by done.
  split_and!; try done; eauto.
Qed.

Lemma encode_zero_channels w ctx enc ch st pcm out len cap :
  valid_handle w ctx enc st → field_is w ctx f_channels ch →
  pcm ≠ NULL → out ≠ NULL → to_size_t ch = 0 →
  opus_frame_encode ctx pcm len out cap w = None.
Proof.
  intros (Hctx & Henc & (c & Hc & He) & Hst) (c' & Hc' & Hch) Hpcm Hout Hz.
  rewrite Hc in Hc'. injection Hc' as <-.
  unfold opus_frame_encode.
  erewrite bind_eq; cycle 1.
  { rewrite decide_False by done. erewrite bind_eq by by eapply load_eq. done. }
  rewrite !bool_decide_eq_false_2 by done. cbn [orb].
  erewrite bind_eq by by eapply load_eq.
  unfold size_div at 1. rewrite decide_False by done.
  erewrite bind_eq by done.
  unfold size_div. rewrite decide_True by done. done.
Qed.

(** One action of a session does what [observe] says, whatever the heap
    and the addresses. *)
Lemma perform_observe w ctx pcm_buf out_buf enc ch st a :
  session_ready w ctx pcm_buf out_buf enc ch st →
  match observe ch st a with
  | Some (r, bytes, st') =>
      ∃ w', perform ctx pcm_buf out_buf a w = Some ((r, bytes), w') ∧
            session_ready w' ctx pcm_buf out_buf enc ch st'
  | None => perform ctx pcm_buf out_buf a w = None
  end.
Proof.
  intros Hready. destruct a as [v|v|pcm cap]; cbn [observe].
  - destruct (session_ready_controlled _ _ _ _ _ _ _ OPUS_SET_BITRATE_REQUEST v Hready)
      as (r & st' & Hf & Hready').
    rewrite Hf. eexists. split; [|exact Hready']. cbn [perform].
    erewrite bind_eq; [done|]. rewrite set_bitrate_tuning.
    rewrite (tuning_forwards _ _ _ enc st) by apply Hready. by rewrite Hf.
  - destruct (session_ready_controlled _ _ _ _ _ _ _ OPUS_SET_COMPLEXITY_REQUEST v Hready)
      as (r & st' & Hf & Hready').
    rewrite Hf. eexists. split; [|exact Hready']. cbn [perform].
    erewrite bind_eq; [done|]. rewrite set_complexity_tuning.
    rewrite (tuning_forwards _ _ _ enc st) by apply Hready. by rewrite Hf.
  - pose proof Hready as (_ & _ & (bi & Hpn & Hpcm) & (bo & Hon & Hout) & Hne).
    set (w1 := set_heap (<[pcm_buf := Buf pcm]> (heap w)) w).
    set (zeros := replicate (Z.to_nat cap) x00).
    set (w2 := set_heap (<[out_buf := Buf zeros]> (heap w1)) w1).
    assert (heap w1 !! out_buf = Some (Buf bo)) as Hout1
      by (simpl; by rewrite lookup_insert_ne).
    assert (session_ready w2 ctx pcm_buf out_buf enc ch st) as Hready2.
    { eapply session_ready_fill; [done|]. by eapply session_ready_fill. }
    assert (buffer_at w2 pcm_buf pcm) as Hin2.
    { split; [done|]. simpl. rewrite lookup_insert_ne by done. apply lookup_insert_eq. }
    assert (buffer_at w2 out_buf zeros) as Hout2
      by (split; [done|]; simpl; apply lookup_insert_eq).
    assert (perform ctx pcm_buf out_buf (Frame pcm cap) w
            = (n <- opus_frame_encode ctx pcm_buf (Z.of_nat (length pcm)) out_buf cap;
               bytes <- read out_buf;
               ret (n, take (Z.to_nat n) bytes)) w2) as ->.
    { cbn [perform]. erewrite bind_eq by by eapply fill_eq.
      erewrite bind_eq by by eapply fill_eq. done. }
    destruct Hready2 as (Hv & Hch & Hrest).
    case_decide as Hz.
    { apply bind_undefined. by eapply encode_zero_channels. }
    erewrite bind_eq by by eapply encode_reaches_engine.
    destruct (session_ready_encoded w2 ctx pcm_buf out_buf enc ch st
                (num_samples (Z.of_nat (length pcm)) ch) cap pcm zeros Hin2 Hout2)
      as (r & written & st' & Hf & Hread & Hready'); [done|].
    rewrite Hf. eexists. split; [|exact Hready'].
    erewrite bind_eq by by eapply read_eq. done.
Qed.

Lemma session_reference w ctx pcm_buf out_buf enc ch st actions :
  session_ready w ctx pcm_buf out_buf enc ch st →
  match reference_outputs ch st actions with
  | Some outs => ∃ w', session ctx pcm_buf out_buf actions w = Some (outs, w')
  | None => session ctx pcm_buf out_buf actions w = None
  end.
Proof.
  revert w st. induction actions as [|a actions IH]; intros w st Hready; simpl.
  { by eexists. }
  pose proof (perform_observe w ctx pcm_buf out_buf enc ch st a Hready) as Hstep.
  destruct (observe ch st a) as [[[r bytes] st']|].
  - destruct Hstep as (w1 & Hperform & Hready').
    erewrite bind_eq by done.
    specialize (IH w1 st' Hready').
    destruct (reference_outputs ch st' actions) as [outs|].
    + destruct IH as [w' Hs]. exists w'. by erewrite bind_eq by done.
    + by apply bind_undefined.
  - by apply bind_undefined.
Qed.

(** A successful create leaves a handle ready for a session on the buffers
    the caller already had. *)
Lemma create_session_ready w sr ch app ctx w' pcm_buf out_buf :
  (∃ bytes, buffer_at w pcm_buf bytes) → (∃ bytes, buffer_at w out_buf bytes) →
  pcm_buf ≠ out_buf →
  opus_frame_encoder_create pick sr ch app w = Some (ctx, w') → ctx ≠ NULL →
  ∃ enc st, encoder_init sr ch app = (OPUS_OK, Some st) ∧
            session_ready w' ctx pcm_buf out_buf enc ch st.
Proof.
  intros (bi & Hpn & Hpcm) (bo & Hon & Hout) Hne Hcreate Hctx.
  destruct (create_cases w sr ch app) as (r & w'' & Heq & Hcases).
  rewrite Hcreate in Heq. injection Heq as <- <-.
  destruct Hcases as [(-> & _)|[(-> & _)|(_ & Hfresh & enc & st & _ & _ & Henc & Hec
                                          & Hefresh & Hinit & _ & Hh)]]; try done.
  exists enc, st. split; [done|].
  assert (ctx ≠ pcm_buf) by (intros ->; by rewrite Hfresh in Hpcm).
  assert (ctx ≠ out_buf) by (intros ->; by rewrite Hfresh in Hout).
  assert (enc ≠ pcm_buf) by (intros ->; by rewrite Hefresh in Hpcm).
  assert (enc ≠ out_buf) by (intros ->; by rewrite Hefresh in Hout).
  unfold session_ready, valid_handle, field_is, buffer_at. rewrite Hh.
  rewrite lookup_insert_eq. rewrite (lookup_insert_ne _ ctx enc) by done.
  rewrite lookup_insert_eq.
  rewrite (lookup_insert_ne _ ctx pcm_buf), (lookup_insert_ne _ ctx out_buf) by done.
  rewrite (lookup_insert_ne _ enc pcm_buf), (lookup_insert_ne _ enc out_buf) by done.
  split_and!; try done; eauto.
Qed.

(** ** The claims *)

(** C1 (as amended).  For a valid handle whose channel count is not zero
    and live PCM and output buffers, [opus_frame_encode] makes one
    single-frame encode call to the engine and returns exactly the value
    that call returned, whatever the byte length; and when the byte length
    is not negative and the channel count is positive, the engine receives
    [pcm_length / 2 / channels] samples per channel (C's truncating
    division). *)
Theorem encode_sample_count_and_result w ctx enc st ch pcm input out old len cap :
  valid_handle w ctx enc st → field_is w ctx f_channels ch →
  buffer_at w pcm input → buffer_at w out old →
  to_size_t ch ≠ 0 →
  ∃ n r w',
    opus_frame_encode ctx pcm len out cap w = Some (r, w') ∧
    trace w' = trace w ++ [EEncode enc pcm n out cap r] ∧
    r = (encode_frame st input n cap).1.1 ∧
    (0 ≤ len < 2 ^ 31 → 0 < ch < 2 ^ 31 → n = Z.quot (Z.quot len 2) ch).
Proof.
  intros Hv Hch Hpcm Hout Hz.
  exists (num_samples len ch). eexists _, _.
  split; [by eapply encode_reaches_engine|].
  destruct (encoded_heap enc pcm (num_samples len ch) out cap st input old w)
    as (r & written & st' & Hf & Htrace & _).
  split; [by rewrite Htrace, Hf|]. split; [done|].
  intros Hlen Hc. by apply num_samples_nonneg.
Qed.

(** C2.  When the handle is null, or its encoder field is null, or the PCM
    pointer or the output pointer is null, [opus_frame_encode] returns [-1]
    and leaves the whole world as it was: no byte of the output buffer (or
    of anything else) is written, and nothing is called. *)
Theorem encode_null_returns_minus_one w ctx pcm len out cap :
  ctx = NULL ∨
  (∃ e, field_is w ctx f_encoder e ∧ (e = NULL ∨ pcm = NULL ∨ out = NULL)) →
  opus_frame_encode ctx pcm len out cap w = Some (-1, w).
Proof.
  intros [Hnull|(e & (c & Hc & He) & Hcases)]; apply encode_rejects; [by left|].
  right. by exists c, e.
Qed.

(** C3 (as amended).  For the five sample rates and one or two channels,
    when the engine accepts the configuration and there is memory for the
    context and for the engine's instance, create returns a non-null handle
    on which the frame size query returns [sample_rate / 50].  The query
    returns 0 on a null handle, the cached field on a live one, and in
    every case leaves the world (heap and trace) untouched: it never calls
    the engine. *)
Theorem create_then_get_frame_size w sr ch app :
  (sr ∈ [8000; 12000; 16000; 24000; 48000] → ch ∈ [1; 2] →
   (∃ st, encoder_init sr ch app = (OPUS_OK, Some st)) →
   fresh_block pick (heap w) ≠ NULL →
   fresh_block pick (heap (allocated (fresh_block pick (heap w)) w)) ≠ NULL →
   ∃ ctx w', opus_frame_encoder_create pick sr ch app w = Some (ctx, w') ∧
             ctx ≠ NULL ∧
             opus_frame_encoder_get_frame_size ctx w' = Some (sr / 50, w')) ∧
  opus_frame_encoder_get_frame_size NULL w = Some (0, w) ∧
  (∀ ctx v, ctx ≠ NULL → field_is w ctx f_frame_size v →
            opus_frame_encoder_get_frame_size ctx w = Some (v, w)) ∧
  (∀ ctx r w', opus_frame_encoder_get_frame_size ctx w = Some (r, w') → w' = w).
Proof.
  split_and!.
  - intros Hsr _ [st Hinit] Hp Hq.
    assert (∃ w2, opus_encoder_create pick sr ch app (allocated (fresh_block pick (heap w)) w)
                  = Some ((OPUS_OK,
                           fresh_block pick (heap (allocated (fresh_block pick (heap w)) w))),
                          w2)) as [w2 Hcreate].
    { unfold opus_encoder_create. rewrite Hinit. rewrite decide_False by done. by eexists. }
    rewrite (create_after_malloc w sr ch app OPUS_OK _ w2 Hp Hcreate).
    rewrite decide_False by (intros [?|?]; done).
    eexists _, _. split; [done|]. split; [done|].
    apply get_frame_size_cached; [done|].
    eexists. split; [apply lookup_insert_eq|]. simpl. f_equal.
    apply Z.quot_div_nonneg; [|lia].
    repeat (apply elem_of_cons in Hsr as [->|Hsr]; [lia|]). by apply elem_of_nil in Hsr.
  - apply get_frame_size_null.
  - apply get_frame_size_cached.
  - apply get_frame_size_inv.
Qed.


(** C5.  The invariant of the public interface.  From a state in which
    every context block is fully constructed and held by the caller, any
    sequence of calls of the six functions (with defined behaviour) leads to
    such a state again: each handle the caller holds points to a context
    whose encoder field is a non-null pointer to a live engine instance of
    its own, whose sample rate and channel count are the arguments of its
    construction and whose frame size is the sample rate divided by 50; and
    the heap holds no other context block, so none is partially
    initialised. *)
Theorem public_interface_invariant calls w held held' w' :
  fully_valid w held → run pick calls held w = Some (held', w') →
  fully_valid w' held'.
Proof.
  revert w held. induction calls as [|a calls IH]; intros w held Hinv Hrun.
  - simpl in Hrun. by injection Hrun as <- <-.
  - simpl in Hrun. apply bind_inv in Hrun as (r & w1 & Hcall & Hrun).
    eapply IH; [|exact Hrun]. by eapply call_preserves_fully_valid.
Qed.

(** C6.  Destroy on a null handle does nothing.  On a valid handle it calls
    the engine's destructor on the instance first and frees the context
    block second, after which neither address is live.  On a live context
    without an instance it only frees the block.  A successful create
    followed by one destroy leaves the heap exactly as it was before the
    create: nothing remains outstanding. *)
Theorem destroy_releases_everything w ctx :
  opus_frame_encoder_destroy NULL w = Some (tt, w) ∧
  (∀ enc st, valid_handle w ctx enc st →
     ∃ w', opus_frame_encoder_destroy ctx w = Some (tt, w') ∧
           trace w' = trace w ++ [EDestroy enc; EFree ctx] ∧
           heap w' = delete ctx (delete enc (heap w)) ∧
           heap w' !! ctx = None ∧ heap w' !! enc = None) ∧
  (ctx ≠ NULL → field_is w ctx f_encoder NULL →
     ∃ w', opus_frame_encoder_destroy ctx w = Some (tt, w') ∧
           trace w' = trace w ++ [EFree ctx] ∧
           heap w' = delete ctx (heap w)) ∧
  (∀ sr ch app w0,
     opus_frame_encoder_create pick sr ch app w0 = Some (ctx, w) → ctx ≠ NULL →
     ∃ w', opus_frame_encoder_destroy ctx w = Some (tt, w') ∧ heap w' = heap w0).
Proof.
  split_and!.
  - apply destroy_null.
  - intros enc st Hv. exists (destroyed ctx enc w).
    split; [by apply (destroy_valid w ctx enc st)|]. split; [done|]. split; [done|].
    simpl. destruct Hv as (_ & _ & (c & Hc & _) & Hst).
    rewrite lookup_delete_eq. split; [done|].
    rewrite lookup_delete_ne by (intros ->; by rewrite Hst in Hc).
    apply lookup_delete_eq.
  - intros Hctx Hf. eexists. split; [by apply destroy_without_instance|done].
  - intros sr ch app w0 Hcreate Hctx.
    destruct (create_cases w0 sr ch app) as (r & w'' & Heq & Hcases).
    rewrite Hcreate in Heq. injection Heq as <- <-.
    destruct Hcases as [(-> & _)|[(-> & _)|(_ & Hfresh & enc & st & _ & _ & Henc & Hec
                                            & Hefresh & _ & _ & Hh)]]; try done.
    assert (valid_handle w ctx enc st) as Hv.
    { split_and!; try done.
      - eexists. rewrite Hh. split; [apply lookup_insert_eq|done].
      - rewrite Hh, lookup_insert_ne by done. apply lookup_insert_eq. }
    exists (destroyed ctx enc w). split; [by apply (destroy_valid w ctx enc st)|].
    simpl. rewrite Hh.
    rewrite (insert_insert_ne _ ctx enc) by done.
    rewrite delete_insert_eq.
    rewrite (delete_id _ enc) by (by rewrite lookup_insert_ne).
    rewrite delete_insert_eq. by apply delete_id.
Qed.

(** C7.  Each tuning operation returns [-1], and does nothing, when the
    handle is null or its encoder field is null; on a valid handle it makes
    one call to the engine's control interface, with its own control
    identifier and the caller's value, and returns the status of that call
    unchanged. *)
Theorem tuning_forwards_to_engine w ctx v :
  (ctx = NULL ∨ field_is w ctx f_encoder NULL →
     opus_frame_encoder_set_bitrate ctx v w = Some (-1, w) ∧
     opus_frame_encoder_set_complexity ctx v w = Some (-1, w)) ∧
  (∀ enc st, valid_handle w ctx enc st →
     (∃ r w', opus_frame_encoder_set_bitrate ctx v w = Some (r, w') ∧
              r = (encoder_ctl st OPUS_SET_BITRATE_REQUEST v).1 ∧
              trace w' = trace w ++ [ECtl enc OPUS_SET_BITRATE_REQUEST v r]) ∧
     (∃ r w', opus_frame_encoder_set_complexity ctx v w = Some (r, w') ∧
              r = (encoder_ctl st OPUS_SET_COMPLEXITY_REQUEST v).1 ∧
              trace w' = trace w ++ [ECtl enc OPUS_SET_COMPLEXITY_REQUEST v r])).
Proof.
  split.
  - intros Hnull. rewrite set_bitrate_tuning, set_complexity_tuning.
    by rewrite !tuning_rejects.
  - intros enc st Hv. rewrite set_bitrate_tuning, set_complexity_tuning.
    rewrite !(tuning_forwards _ _ _ enc st) by done.
    split; eexists _, _; (split; [done|]); (split; [done|]).
    + destruct (controlled_heap enc OPUS_SET_BITRATE_REQUEST v st w)
        as (r & st' & Hf & -> & _). by rewrite Hf.
    + destruct (controlled_heap enc OPUS_SET_COMPLEXITY_REQUEST v st w)
        as (r & st' & Hf & -> & _). by rewrite Hf.
Qed.

Lemma tuning_frame w request ctx v r w' :
  tuning request ctx v w = Some (r, w') →
  same_contexts (heap w) (heap w') ∧ same_buffers (heap w) (heap w') ∧
  dom (heap w') = dom (heap w) ∧
  (∀ p, ¬ field_is w ctx f_encoder p → heap w' !! p = heap w !! p) ∧
  ∃ events, trace w' = trace w ++ events ∧ Forall (λ e, engine_event e = true) events.
Proof.
  intros [[_ ->]|(enc & st & (_ & _ & Hf & Hst) & _ & ->)]%tuning_inv.
  { split_and!; try done. exists []. by rewrite app_nil_r. }
  split; [by apply controlled_same_contexts|].
  destruct (controlled_heap enc request v st w) as (r' & st' & _ & Htrace & Hh).
  rewrite Hh. split_and!.
  - intros p bytes. destruct (decide (p = enc)) as [->|Hne].
    + rewrite lookup_insert_eq, Hst. split; intros [=].
    + by rewrite lookup_insert_ne.
  - apply dom_insert_lookup_L. by rewrite Hst.
  - intros p Hp. rewrite lookup_insert_ne; [done|]. by intros <-.
  - exists [ECtl enc request v r']. split; [done|]. by repeat constructor.
Qed.

(** C8.  Frame condition.  A call of [opus_frame_encode] or of a tuning
    operation allocates and frees nothing, leaves every context block (so
    every cached sample rate, channel count and frame size) as it was, and
    calls nothing but the engine.  Encode changes no byte buffer other than
    the output buffer, and no block at all other than the output buffer and
    the handle's own engine instance; a tuning operation changes no byte
    buffer at all, and no block other than the handle's own instance. *)
Theorem encode_and_tuning_frame_condition w ctx :
  (∀ pcm len out cap r w',
     opus_frame_encode ctx pcm len out cap w = Some (r, w') →
     same_contexts (heap w) (heap w') ∧
     same_buffers_except out (heap w) (heap w') ∧
     dom (heap w') = dom (heap w) ∧
     (∀ p, p ≠ out → ¬ field_is w ctx f_encoder p → heap w' !! p = heap w !! p) ∧
     ∃ events, trace w' = trace w ++ events ∧
               Forall (λ e, engine_event e = true) events) ∧
  (∀ v r w',
     opus_frame_encoder_set_bitrate ctx v w = Some (r, w') ∨
     opus_frame_encoder_set_complexity ctx v w = Some (r, w') →
     same_contexts (heap w) (heap w') ∧
     same_buffers (heap w) (heap w') ∧
     dom (heap w') = dom (heap w) ∧
     (∀ p, ¬ field_is w ctx f_encoder p → heap w' !! p = heap w !! p) ∧
     ∃ events, trace w' = trace w ++ events ∧
               Forall (λ e, engine_event e = true) events).
Proof.
  split.
  - intros pcm len out cap r w'
      [[_ ->]|(enc & ch & st & input & old & (_ & _ & Hf & Hst) & _ & _ & [_ Hold]
               & _ & _ & ->)]%encode_inv.
    { split_and!; try done. exists []. by rewrite app_nil_r. }
    split; [by apply encoded_same_contexts|].
    destruct (encoded_heap enc pcm (num_samples len ch) out cap st input old w)
      as (r' & written & st' & _ & Htrace & Hh).
    rewrite Hh. split_and!.
    + intros p bytes Hp. rewrite lookup_insert_ne by done.
      destruct (decide (p = enc)) as [->|Hne].
      * rewrite lookup_insert_eq, Hst. split; intros [=].
      * by rewrite lookup_insert_ne.
    + rewrite dom_insert_lookup_L.
      * apply dom_insert_lookup_L. by rewrite Hst.
      * rewrite lookup_insert_ne; [by rewrite Hold|]. intros ->. by rewrite Hst in Hold.
    + intros p Hpo Hp. rewrite lookup_insert_ne by done.
      rewrite lookup_insert_ne; [done|]. by intros <-.
    + exists [EEncode enc pcm (num_samples len ch) out cap r']. split; [done|].
      by repeat constructor.
  - intros v r w' [H|H].
    + rewrite set_bitrate_tuning in H. by eapply tuning_frame.
    + rewrite set_complexity_tuning in H. by eapply tuning_frame.
Qed.

(** C10 (as amended).  Past the null checks nothing is validated: for every
    [pcm_length] and every [output_buffer_size], a valid handle with a
    non-zero channel count reaches the engine's encode call, and the
    result is the engine's.  The sample count is computed in [size_t]: for
    [0 ≤ pcm_length] it is the truncated quotient
    [pcm_length / 2 / channels], possibly zero, which leaves out fewer than
    [2 * channels] trailing bytes; for a negative [pcm_length] it is the
    quotient of [pcm_length + 2^32]; it is never negative. *)
Theorem encode_length_not_validated w ctx enc st ch pcm input out old len cap :
  valid_handle w ctx enc st → field_is w ctx f_channels ch →
  buffer_at w pcm input → buffer_at w out old →
  to_size_t ch ≠ 0 →
  (∃ r w',
     opus_frame_encode ctx pcm len out cap w = Some (r, w') ∧
     trace w' = trace w ++ [EEncode enc pcm (num_samples len ch) out cap r] ∧
     r = (encode_frame st input (num_samples len ch) cap).1.1) ∧
  0 ≤ num_samples len ch ∧
  (0 ≤ len < 2 ^ 31 → 0 < ch < 2 ^ 31 →
     num_samples len ch = Z.quot (Z.quot len 2) ch ∧
     0 ≤ len - 2 * ch * num_samples len ch < 2 * ch) ∧
  (- 2 ^ 31 ≤ len < 0 → 0 < ch < 2 ^ 31 →
     num_samples len ch = (len + 2 ^ 32) / 2 / ch).
Proof.
  intros Hv Hch Hpcm Hout Hz.
  assert (0 < to_size_t ch) as Hpos.
  { assert (0 ≤ to_size_t ch < 2 ^ 32)
      by (unfold to_size_t, to_unsigned, SIZE_BITS; apply Z.mod_pos_bound; lia). lia. }
  split_and!.
  - eexists _, _. split; [by eapply encode_reaches_engine|]. split; [|done].
    destruct (encoded_heap enc pcm (num_samples len ch) out cap st input old w)
      as (r & written & st' & Hf & Htrace & _).
    by rewrite Htrace, Hf.
  - by apply num_samples_bounds.
  - intros Hlen Hc. split; [by apply num_samples_nonneg|].
    rewrite num_samples_nonneg by done.
    assert (0 ≤ len / 2) by (apply Z.div_pos; lia).
    rewrite (Z.quot_div_nonneg len 2) by lia.
    rewrite (Z.quot_div_nonneg (len / 2) ch) by lia.
    pose proof (Z.div_mod len 2 ltac:(lia)).
    pose proof (Z.mod_pos_bound len 2 ltac:(lia)).
    pose proof (Z.div_mod (len / 2) ch ltac:(lia)).
    pose proof (Z.mod_pos_bound (len / 2) ch ltac:(lia)).
    nia.
  - intros Hlen Hc. unfold num_samples, sizeof_opus_int16.
    rewrite to_size_t_negative by lia. rewrite (to_size_t_nonneg ch) by lia.
    apply to_int_nonneg.
    assert (0 ≤ (len + 2 ^ 32) / 2 < 2 ^ 31)
      by (split; [apply Z.div_pos; lia|apply Z.div_lt_upper_bound; lia]).
    split; [apply Z.div_pos; lia|].
    apply Z.le_lt_trans with ((len + 2 ^ 32) / 2); [|lia].
    apply Z.div_le_upper_bound; [lia|]. nia.
Qed.
(** ** Further properties *)

(** X1.  Create has defined behaviour on every input, in every heap, with every
    allocator and every engine: it returns null, or a handle at an address
    that was not live before the call. *)
Theorem create_always_returns w sr ch app :
  ∃ r w', opus_frame_encoder_create pick sr ch app w = Some (r, w') ∧
          (r = NULL ∨ heap w !! r = None).
Proof.
  destruct (create_cases w sr ch app) as (r & w' & Hcreate & Hcases).
  exists r, w'. split; [done|].
  destruct Hcases as [(-> & _)|[(-> & _)|(_ & Hfresh & _)]]; auto.
Qed.

(** X2.  The cached frame size is [sample_rate / 50] truncated, for every sample
    rate the engine accepts, also one that 50 does not divide. *)
Theorem create_caches_truncated_frame_size w sr ch app ctx w' :
  opus_frame_encoder_create pick sr ch app w = Some (ctx, w') → ctx ≠ NULL →
  opus_frame_encoder_get_frame_size ctx w' = Some (Z.quot sr 50, w').
Proof.
  intros Hcreate Hctx.
  destruct (create_cases w sr ch app) as (r & w'' & Heq & Hcases).
  rewrite Hcreate in Heq. injection Heq as <- <-.
  destruct Hcases as [(-> & _)|[(-> & _)|(_ & _ & enc & st & _ & _ & _ & _ & _ & _ & _ & Hh)]];
    try done.
  apply get_frame_size_cached; [done|].
  exists (constructed enc sr ch). split; [|done]. rewrite Hh. apply lookup_insert_eq.
Qed.

(** X3.  Nothing detects the use of a handle after destroy: once a valid handle
    has been destroyed, every operation on it dereferences a freed block,
    which is undefined behaviour. *)
Theorem use_after_destroy_is_undefined w ctx enc st pcm len out cap v :
  valid_handle w ctx enc st →
  opus_frame_encoder_get_frame_size ctx (destroyed ctx enc w) = None ∧
  opus_frame_encode ctx pcm len out cap (destroyed ctx enc w) = None ∧
  opus_frame_encoder_set_bitrate ctx v (destroyed ctx enc w) = None ∧
  opus_frame_encoder_set_complexity ctx v (destroyed ctx enc w) = None ∧
  opus_frame_encoder_destroy ctx (destroyed ctx enc w) = None.
Proof.
  intros (Hctx & _).
  assert (∀ f, load ctx f (destroyed ctx enc w) = None) as Hload.
  { intros f. unfold load, destroyed. simpl. by rewrite lookup_delete_eq. }
  unfold opus_frame_encoder_get_frame_size, opus_frame_encode,
    opus_frame_encoder_set_bitrate, opus_frame_encoder_set_complexity,
    opus_frame_encoder_destroy.
  rewrite !decide_False by done.
  split_and!; [done|..]; repeat (apply bind_undefined); by rewrite ?Hload.
Qed.

(** *** What a call needs, and what it leaves alone *)

(** A context and its instance are read at their two addresses only. *)
Lemma handle_frame w w' ctx enc st :
  heap w' !! ctx = heap w !! ctx → heap w' !! enc = heap w !! enc →
  valid_handle w ctx enc st →
  valid_handle w' ctx enc st ∧ (∀ f v, field_is w ctx f v → field_is w' ctx f v).
Proof.
  intros Hc He (Hctx & Henc & Hf & Hst).
  unfold valid_handle, field_is. rewrite Hc, He. split_and!; try done.
Qed.

(** Under the invariant, a context owns the instance it points to. *)
Lemma fully_valid_own_instance w held p q enc st st' :
  fully_valid w held → valid_handle w p enc st → valid_handle w q enc st' → p = q.
Proof.
  intros (_ & _ & HC) (_ & _ & (c & Hc & He) & _) (_ & _ & (d & Hd & He') & _).
  by eapply HC.
Qed.

Lemma fully_valid_held_handle w held ctx sr ch :
  fully_valid w held → held !! ctx = Some (sr, ch) →
  ∃ enc st, valid_handle w ctx enc st ∧
            heap w !! ctx = Some (Ctx (constructed enc sr ch)).
Proof.
  intros (HA & HB & _) Hheld.
  destruct (HB ctx (mk_is_Some _ _ Hheld)) as (Hctx & c & Hc).
  destruct (HA ctx c Hc) as (sr' & ch' & enc & st & Hheld' & -> & Henc & Hst).
  rewrite Hheld in Hheld'. injection Hheld' as <- <-.
  exists enc, st. split; [|done].
  split_and!; try done. by eexists.
Qed.



(** Under the invariant, an address the caller does not hold is no
    context: reading a field through it is undefined. *)
Lemma load_not_held w held ctx f :
  fully_valid w held → held !! ctx = None → load ctx f w = None.
Proof.
  intros (HA & _) Hheld. unfold load.
  destruct (heap w !! ctx) as [[c| |]|] eqn:Hc; try done.
  destruct (HA ctx c Hc) as (? & ? & ? & ? & Hheld' & _). by rewrite Hheld in Hheld'.
Qed.

(** An encode call that passes the null checks with a pointer that is not
    a live buffer is undefined. *)
Lemma encode_dangling_buffer w ctx enc ch st pcm out len cap :
  valid_handle w ctx enc st → field_is w ctx f_channels ch →
  pcm ≠ NULL → out ≠ NULL →
  (∀ bytes, heap w !! pcm ≠ Some (Buf bytes)) ∨ (∀ bytes, heap w !! out ≠ Some (Buf bytes)) →
  opus_frame_encode ctx pcm len out cap w = None.
Proof.
  intros Hv Hf Hpcm Hout Hdangling.
  destruct (decide (to_size_t ch = 0)) as [Hz|Hz]; [by eapply encode_zero_channels|].
  destruct Hv as (Hctx & Henc & (c & Hc & He) & Hst). destruct Hf as (c' & Hc' & Hch).
  rewrite Hc in Hc'. injection Hc' as <-.
  unfold opus_frame_encode.
  erewrite bind_eq; cycle 1.
  { rewrite decide_False by done. erewrite bind_eq by by eapply load_eq. done. }
  rewrite !bool_decide_eq_false_2 by done. cbn [orb].
  erewrite bind_eq by by eapply load_eq.
  unfold size_div at 1. rewrite decide_False by done.
  erewrite bind_eq by done.
  unfold size_div. rewrite decide_False by done.
  erewrite bind_eq by done.
  erewrite bind_eq by by eapply load_eq.
  apply bind_undefined. unfold opus_encode. rewrite Hst.
  destruct (heap w !! pcm) as [[| |input]|] eqn:Hin; try done.
  destruct (heap w !! out) as [[| |old]|] eqn:Hold; try done.
  destruct Hdangling as [Hd|Hd]; by edestruct Hd.
Qed.



(** X5.  A call leaves every other handle alone.  Under the invariant, a
    call made on one handle (or a create) leaves any other valid handle
    valid, with the same instance in the same state and the same fields. *)
Theorem other_handles_unaffected w held a r w' ctx enc st :
  fully_valid w held → call pick a w = Some (r, w') →
  valid_handle w ctx enc st → handle_of a ≠ Some ctx →
  valid_handle w' ctx enc st ∧ (∀ f v, field_is w ctx f v → field_is w' ctx f v).
Proof.
  intros Hinv Hcall Hv Hother.
  pose proof Hv as (_ & _ & (c & Hc & _) & Hst).
  apply handle_frame; [| |done];
    destruct a as [sr ch app|ctx0|ctx0 pcm len out cap|ctx0|ctx0 v|ctx0 v];
    simpl in Hcall, Hother.
  1, 7: rewrite ?Hc, ?Hst; by eapply create_keeps_blocks.
  - by apply get_frame_size_inv in Hcall as ->.
  - apply encode_inv in Hcall
      as [[_ ->]|(e & ch & s & input & old & (_ & _ & _ & Hs) & _ & _ & [_ Hold] & _ & _ & ->)];
      [done|].
    destruct (encoded_heap e pcm (num_samples len ch) out cap s input old w)
      as (r' & written & s' & _ & _ & ->).
    rewrite lookup_insert_ne by (intros ->; by rewrite Hold in Hc).
    by rewrite lookup_insert_ne by (intros ->; by rewrite Hs in Hc).
  - apply bind_inv in Hcall as ([] & w1 & Hd & [= <- <-]).
    apply destroy_inv in Hd as [[-> ->]|[(_ & _ & ->)|(e & s & (_ & _ & _ & Hs) & ->)]];
      [done| |]; simpl.
    + by rewrite lookup_delete_ne by congruence.
    + rewrite lookup_delete_ne by congruence.
      by rewrite lookup_delete_ne by (intros ->; by rewrite Hs in Hc).
  - rewrite set_bitrate_tuning in Hcall.
    apply tuning_inv in Hcall as [[_ ->]|(e & s & (_ & _ & _ & Hs) & _ & ->)]; [done|].
    destruct (controlled_heap e OPUS_SET_BITRATE_REQUEST v s w) as (r' & s' & _ & _ & ->).
    by rewrite lookup_insert_ne by (intros ->; by rewrite Hs in Hc).
  - rewrite set_complexity_tuning in Hcall.
    apply tuning_inv in Hcall as [[_ ->]|(e & s & (_ & _ & _ & Hs) & _ & ->)]; [done|].
    destruct (controlled_heap e OPUS_SET_COMPLEXITY_REQUEST v s w) as (r' & s' & _ & _ & ->).
    by rewrite lookup_insert_ne by (intros ->; by rewrite Hs in Hc).
  - by apply get_frame_size_inv in Hcall as ->.
  - apply encode_inv in Hcall
      as [[_ ->]|(e & ch & s & input & old & Hv0 & _ & _ & [_ Hold] & _ & _ & ->)];
      [done|].
    destruct (encoded_heap e pcm (num_samples len ch) out cap s input old w)
      as (r' & written & s' & _ & _ & ->).
    rewrite lookup_insert_ne by (intros ->; by rewrite Hold in Hst).
    rewrite lookup_insert_ne; [done|]. intros ->. apply Hother. f_equal.
    by apply (fully_valid_own_instance w held ctx0 ctx enc s st).
  - apply bind_inv in Hcall as ([] & w1 & Hd & [= <- <-]).
    apply destroy_inv in Hd as [[-> ->]|[(_ & (d & Hd & _) & ->)|(e & s & Hv0 & ->)]];
      [done| |]; simpl.
    + by rewrite lookup_delete_ne by (intros ->; by rewrite Hd in Hst).
    + pose proof Hv0 as (_ & _ & (d & Hd & _) & _).
      rewrite lookup_delete_ne by (intros ->; by rewrite Hd in Hst).
      rewrite lookup_delete_ne; [done|]. intros ->. apply Hother. f_equal.
      by apply (fully_valid_own_instance w held ctx0 ctx enc s st).
  - rewrite set_bitrate_tuning in Hcall.
    apply tuning_inv in Hcall as [[_ ->]|(e & s & Hv0 & _ & ->)]; [done|].
    destruct (controlled_heap e OPUS_SET_BITRATE_REQUEST v s w) as (r' & s' & _ & _ & ->).
    rewrite lookup_insert_ne; [done|]. intros ->. apply Hother. f_equal.
    by apply (fully_valid_own_instance w held ctx0 ctx enc s st).
  - rewrite set_complexity_tuning in Hcall.
    apply tuning_inv in Hcall as [[_ ->]|(e & s & Hv0 & _ & ->)]; [done|].
    destruct (controlled_heap e OPUS_SET_COMPLEXITY_REQUEST v s w) as (r' & s' & _ & _ & ->).
    rewrite lookup_insert_ne; [done|]. intros ->. apply Hother. f_equal.
    by apply (fully_valid_own_instance w held ctx0 ctx enc s st).
Qed.

(** *** Engine instances and their contexts *)

Lemma no_stray_instances_frame w w' :
  same_contexts (heap w) (heap w') →
  (∀ e s', heap w' !! e = Some (Enc s') → ∃ s, heap w !! e = Some (Enc s)) →
  no_stray_instances w → no_stray_instances w'.
Proof.
  intros Hsame Hfrom Hno e s' He.
  destruct (Hfrom e s' He) as [s Hs].
  destruct (Hno e s Hs) as (p & c & Hp & Hc).
  exists p, c. split; [by apply Hsame|done].
Qed.

Lemma encoded_instances_from enc pcm n out cap st input old w e s' :
  heap w !! enc = Some (Enc st) →
  heap (encoded enc pcm n out cap st input old w) !! e = Some (Enc s') →
  ∃ s, heap w !! e = Some (Enc s).
Proof.
  intros Hst.
  destruct (encoded_heap enc pcm n out cap st input old w) as (r & wr & st' & _ & _ & ->).
  destruct (decide (e = out)) as [->|Heo]; [by rewrite lookup_insert_eq|].
  rewrite lookup_insert_ne by done.
  destruct (decide (e = enc)) as [->|Hee]; [eauto|].
  rewrite lookup_insert_ne by done. eauto.
Qed.

Lemma controlled_instances_from enc request v st w e s' :
  heap w !! enc = Some (Enc st) →
  heap (controlled enc request v st w) !! e = Some (Enc s') →
  ∃ s, heap w !! e = Some (Enc s).
Proof.
  intros Hst.
  destruct (controlled_heap enc request v st w) as (r & st' & _ & _ & ->).
  destruct (decide (e = enc)) as [->|Hee]; [eauto|].
  rewrite lookup_insert_ne by done. eauto.
Qed.

Lemma call_preserves_no_stray_instances w held a r w' :
  instance_only_on_success →
  fully_valid w held → no_stray_instances w → call pick a w = Some (r, w') →
  no_stray_instances w'.
Proof.
  intros Hcontract Hinv Hno Hcall.
  destruct a as [sr ch app|ctx|ctx pcm len out cap|ctx|ctx v|ctx v]; simpl in Hcall.
  - destruct (create_cases w sr ch app) as (r' & w'' & Heq & Hcases).
    rewrite Hcall in Heq. injection Heq as <- <-.
    destruct Hcases as [(_ & _ & ->)
                       |[(_ & p & error & enc & _ & _ & Hbad & _ & _ & _ & Hleft)
                        |(_ & Hfresh & enc & st & _ & _ & _ & Her & Hefresh & _ & _ & Hh)]];
      [done| |].
    { destruct Hleft as [[_ Hh]|(Henc & _ & _ & st & Hinit & _)].
      - intros e s. rewrite Hh. by apply Hno.
      - destruct Hbad as [Herr|?]; [|done].
        by destruct (Herr (Hcontract sr ch app error st Hinit)). }
    intros e s; rewrite Hh.
    destruct (decide (e = r)) as [->|Hne]; [by rewrite lookup_insert_eq|].
    rewrite lookup_insert_ne by done.
    destruct (decide (e = enc)) as [->|Hee].
    { intros _. exists r, (constructed enc sr ch). by rewrite lookup_insert_eq. }
    rewrite lookup_insert_ne by done. intros He.
    destruct (Hno e s He) as (p & c & Hp & Hc). exists p, c. split; [|done].
    rewrite lookup_insert_ne by (intros ->; by rewrite Hfresh in Hp).
    by rewrite lookup_insert_ne by (intros ->; by rewrite Hefresh in Hp).
  - by apply get_frame_size_inv in Hcall as ->.
  - apply encode_inv in Hcall
      as [[_ ->]|(enc & ch & st & input & old & (_ & _ & _ & Hst) & _ & _ & [_ Hold] & _ & _ & ->)];
      [done|].
    revert Hno. apply no_stray_instances_frame.
    + by apply encoded_same_contexts.
    + intros e s'. by apply encoded_instances_from.
  - apply bind_inv in Hcall as ([] & w1 & Hd & [= <- <-]).
    apply destroy_inv in Hd as [[-> ->]|[(_ & Hf & ->)
                                         |(enc & st & (_ & _ & (c0 & Hc0 & He0) & Hst) & ->)]];
      [done| |].
    + by destruct (fully_valid_handle _ _ _ _ Hinv Hf).
    + intros e s. simpl. rewrite !lookup_delete_Some. intros (Hec & Hee & He).
      destruct (Hno e s He) as (p & c & Hp & Hc). exists p, c. split; [|done].
      rewrite !lookup_delete_Some. split_and!; [|by intros ->; rewrite Hst in Hp|done].
      intros ->. rewrite Hc0 in Hp. injection Hp as <-.
      simpl in He0. rewrite He0 in Hc. by injection Hc as <-.
  - rewrite set_bitrate_tuning in Hcall.
    apply tuning_inv in Hcall as [[_ ->]|(enc & st & (_ & _ & _ & Hst) & _ & ->)]; [done|].
    revert Hno. apply no_stray_instances_frame.
    + by apply controlled_same_contexts.
    + intros e s'. by apply controlled_instances_from.
  - rewrite set_complexity_tuning in Hcall.
    apply tuning_inv in Hcall as [[_ ->]|(enc & st & (_ & _ & _ & Hst) & _ & ->)]; [done|].
    revert Hno. apply no_stray_instances_frame.
    + by apply controlled_same_contexts.
    + intros e s'. by apply controlled_instances_from.
Qed.

Lemma run_preserves_instances calls w held held' w' :
  instance_only_on_success →
  fully_valid w held → no_stray_instances w →
  run pick calls held w = Some (held', w') →
  fully_valid w' held' ∧ no_stray_instances w'.
Proof.
  intros Hcontract.
  revert w held. induction calls as [|a calls IH]; intros w held Hinv Hno Hrun.
  - simpl in Hrun. by injection Hrun as <- <-.
  - simpl in Hrun. apply bind_inv in Hrun as (r & w1 & Hcall & Hrun).
    eapply IH; [| |exact Hrun].
    + by eapply call_preserves_fully_valid.
    + by eapply call_preserves_no_stray_instances.
Qed.

(** X6.  With an engine that hands back no instance together with a
    non-success status, no engine instance is leaked.  If every context is
    held by the caller and every engine instance belongs to a context, then
    after any sequence of calls every context is still held and every
    engine instance still belongs to a context; and once the caller has
    destroyed every handle it held, the heap holds nothing but byte
    buffers: no context and no engine instance is left.  (An instance that
    comes with a non-success status is left behind by a failed create,
    which frees the context only.) *)
Theorem no_engine_instance_is_leaked calls w held held' w' :
  instance_only_on_success →
  fully_valid w held → no_stray_instances w →
  run pick calls held w = Some (held', w') →
  fully_valid w' held' ∧ no_stray_instances w' ∧
  (held' = ∅ → ∀ p b, heap w' !! p = Some b → ∃ bytes, b = Buf bytes).
Proof.
  intros Hcontract Hinv Hno Hrun.
  destruct (run_preserves_instances calls w held held' w' Hcontract Hinv Hno Hrun)
    as (Hinv' & Hno').
  pose proof Hinv' as (HA & _).
  split; [done|]. split; [done|]. intros -> p b Hp.
  assert (∀ q c, heap w' !! q ≠ Some (Ctx c)) as Hnoctx.
  { intros q c Hq. destruct (HA q c Hq) as (? & ? & ? & ? & Hheld & _).
    by rewrite lookup_empty in Hheld. }
  destruct b as [c|s|bytes]; [by destruct (Hnoctx p c)| |by eexists].
  destruct (Hno' p s Hp) as (q & c & Hq & _). by destruct (Hnoctx q c).
Qed.

(** *** Frames *)

(** X7.  The division by the channel count is not guarded.  On a valid
    handle whose channel count is zero, an encode call with non-null
    pointers divides by zero, which is undefined behaviour; the null checks
    come first, so with a null pointer the call still returns [-1]. *)
Theorem encode_divides_by_unchecked_channel_count w ctx enc st pcm len out cap :
  valid_handle w ctx enc st → field_is w ctx f_channels 0 →
  (pcm ≠ NULL → out ≠ NULL → opus_frame_encode ctx pcm len out cap w = None) ∧
  opus_frame_encode ctx NULL len out cap w = Some (-1, w) ∧
  opus_frame_encode ctx pcm len NULL cap w = Some (-1, w).
Proof.
  intros Hv Hch. split_and!.
  - intros Hpcm Hout. by eapply encode_zero_channels.
  - destruct Hv as (_ & _ & (c & Hc & He) & _).
    apply encode_rejects. right. exists c, enc. tauto.
  - destruct Hv as (_ & _ & (c & Hc & He) & _).
    apply encode_rejects. right. exists c, enc. tauto.
Qed.

Lemma num_samples_whole_frame fs ch :
  0 ≤ fs → 0 < ch < 2 ^ 31 → fs * 2 * ch < 2 ^ 31 →
  num_samples (fs * 2 * ch) ch = fs.
Proof.
  intros Hfs Hch Hlen.
  rewrite num_samples_nonneg by nia.
  replace (fs * 2 * ch) with (fs * ch * 2) by lia.
  rewrite Z.quot_mul by lia. apply Z.quot_mul. lia.
Qed.

(** X8.  The frame size is the unit of the encode call.  After a
    successful create with [0 ≤ sample_rate] and [0 < channels], a call of
    encode with [frame_size * 2 * channels] bytes, where [frame_size] is
    what the frame size query returns, hands the engine exactly
    [frame_size] samples per channel, on the instance in its initial
    state. *)
Theorem frame_size_bytes_are_one_frame w sr ch app ctx w' pcm input out old cap :
  opus_frame_encoder_create pick sr ch app w = Some (ctx, w') → ctx ≠ NULL →
  buffer_at w' pcm input → buffer_at w' out old →
  0 ≤ sr → 0 < ch < 2 ^ 31 → Z.quot sr 50 * 2 * ch < 2 ^ 31 →
  ∃ fs enc st r w'',
    opus_frame_encoder_get_frame_size ctx w' = Some (fs, w') ∧
    fs = Z.quot sr 50 ∧
    encoder_init sr ch app = (OPUS_OK, Some st) ∧
    opus_frame_encode ctx pcm (fs * 2 * ch) out cap w' = Some (r, w'') ∧
    trace w'' = trace w' ++ [EEncode enc pcm fs out cap r] ∧
    r = (encode_frame st input fs cap).1.1.
Proof.
  intros Hcreate Hctx Hpcm Hout Hsr Hch Hlen.
  destruct (create_cases w sr ch app) as (r0 & w0 & Heq & Hcases).
  rewrite Hcreate in Heq. injection Heq as <- <-.
  destruct Hcases as [(-> & _)|[(-> & _)|(_ & Hfresh & enc & st & _ & _ & Henc & Hec
                                          & Hefresh & Hinit & _ & Hh)]]; try done.
  assert (heap w' !! ctx = Some (Ctx (constructed enc sr ch))) as Hc
    by (rewrite Hh; apply lookup_insert_eq).
  assert (valid_handle w' ctx enc st) as Hv.
  { split_and!; try done; [by eexists|].
    rewrite Hh, lookup_insert_ne by done. apply lookup_insert_eq. }
  assert (field_is w' ctx f_channels ch) as Hf by by eexists.
  assert (0 ≤ Z.quot sr 50) as Hfs by (apply Z.quot_pos; lia).
  pose proof (encode_reaches_engine w' ctx enc ch st pcm input out old
                (Z.quot sr 50 * 2 * ch) cap Hv Hf Hpcm Hout) as Hencode.
  rewrite num_samples_whole_frame in Hencode by done.
  rewrite to_size_t_nonneg in Hencode by lia.
  exists (Z.quot sr 50), enc, st. eexists _, _. split_and!.
  - apply get_frame_size_cached; [done|]. by eexists.
  - done.
  - done.
  - apply Hencode. lia.
  - destruct (encoded_heap enc pcm (Z.quot sr 50) out cap st input old w')
      as (r & written & st' & Hfr & Htrace & _).
    by rewrite Htrace, Hfr.
  - done.
Qed.

(** X9.  A handle stays valid across its own calls, and carries the
    engine's state from one call to the next.  After an encode call that
    reaches the engine, where the engine writes no more bytes than the
    output buffer holds, the handle is valid with the instance in the state
    the engine left it in, the output buffer holds the bytes the engine
    wrote followed by what it held past them, and the PCM buffer is as it
    was; after a tuning call the handle is valid with the state the control
    call left.  The channel count is the same in each case. *)
Theorem handle_carries_engine_state w ctx enc st ch :
  valid_handle w ctx enc st → field_is w ctx f_channels ch →
  (∀ pcm input out old len cap,
     buffer_at w pcm input → buffer_at w out old → to_size_t ch ≠ 0 →
     (length (encode_frame st input (num_samples len ch) cap).1.2 ≤ length old)%nat →
     ∃ r written st' w',
       encode_frame st input (num_samples len ch) cap = (r, written, st') ∧
       opus_frame_encode ctx pcm len out cap w = Some (r, w') ∧
       valid_handle w' ctx enc st' ∧ field_is w' ctx f_channels ch ∧
       buffer_at w' out (written ++ drop (length written) old) ∧
       (pcm ≠ out → buffer_at w' pcm input)) ∧
  (∀ v, ∃ r st' w',
     encoder_ctl st OPUS_SET_BITRATE_REQUEST v = (r, st') ∧
     opus_frame_encoder_set_bitrate ctx v w = Some (r, w') ∧
     valid_handle w' ctx enc st' ∧ field_is w' ctx f_channels ch) ∧
  (∀ v, ∃ r st' w',
     encoder_ctl st OPUS_SET_COMPLEXITY_REQUEST v = (r, st') ∧
     opus_frame_encoder_set_complexity ctx v w = Some (r, w') ∧
     valid_handle w' ctx enc st' ∧ field_is w' ctx f_channels ch).
Proof.
  intros Hv Hch.
  pose proof Hv as (Hctx & Henc & (c & Hc & He) & Hst).
  destruct Hch as (c' & Hc' & Hch). rewrite Hc in Hc'. injection Hc' as <-.
  assert (enc ≠ ctx) as Hec by (intros ->; by rewrite Hc in Hst).
  assert (∀ request v, ∃ r st' w',
     encoder_ctl st request v = (r, st') ∧
     tuning request ctx v w = Some (r, w') ∧
     valid_handle w' ctx enc st' ∧ field_is w' ctx f_channels ch) as Htuning.
  { intros request v.
    destruct (controlled_heap enc request v st w) as (r & st' & Hf & _ & Hh).
    exists r, st', (controlled enc request v st w). split; [done|]. split.
    { rewrite (tuning_forwards w request ctx enc st v Hv). by rewrite Hf. }
    unfold valid_handle, field_is. rewrite Hh.
    rewrite lookup_insert_eq, !(lookup_insert_ne _ enc ctx) by done.
    split_and!; eauto. }
  split_and!; [|intros v; apply Htuning..].
  intros pcm input out old len cap [Hpcm Hin] [Hout Hold] Hz Hfits.
  destruct (encoded_heap enc pcm (num_samples len ch) out cap st input old w)
    as (r & written & st' & Hf & _ & Hh).
  rewrite Hf in Hfits. simpl in Hfits.
  assert (overlay written old = written ++ drop (length written) old) as Hwritten
    by (unfold overlay; by rewrite take_ge).
  rewrite Hwritten in Hh.
  exists r, written, st', (encoded enc pcm (num_samples len ch) out cap st input old w).
  split; [done|]. split.
  { erewrite encode_reaches_engine; try done; [by rewrite Hf|by exists c]. }
  assert (out ≠ ctx) by (intros ->; by rewrite Hc in Hold).
  assert (out ≠ enc) by (intros ->; by rewrite Hst in Hold).
  assert (enc ≠ pcm) by (intros ->; by rewrite Hst in Hin).
  unfold valid_handle, field_is, buffer_at. rewrite Hh.
  rewrite lookup_insert_eq.
  rewrite !(lookup_insert_ne _ out ctx), !(lookup_insert_ne _ out enc) by done.
  rewrite lookup_insert_eq, !(lookup_insert_ne _ enc ctx) by done.
  split_and!; eauto.
  intros Hne. split; [done|].
  rewrite lookup_insert_ne by done. by rewrite lookup_insert_ne by done.
Qed.

(** *** The guards on the encoder field *)

Lemma unheld_handle_undefined w held ctx :
  fully_valid w held → ctx ≠ NULL → held !! ctx = None →
  (∀ pcm len out cap, opus_frame_encode ctx pcm len out cap w = None) ∧
  (∀ request v, tuning request ctx v w = None) ∧
  opus_frame_encoder_destroy ctx w = None.
Proof.
  intros Hinv Hctx Hheld.
  assert (∀ f, load ctx f w = None) as Hload by (intros f; by eapply load_not_held).
  split_and!; intros;
    unfold opus_frame_encode, tuning, opus_frame_encoder_destroy;
    rewrite !decide_False by done;
    repeat (apply bind_undefined); by rewrite ?Hload.
Qed.

(** X10.  Through the public interface the guards on the encoder field
    never fire.  Under the invariant, a call with defined behaviour on a
    non-null handle always reaches the engine: encode (with non-null
    pointers) and the tuning operations return what the engine returned,
    never the wrapper's own [-1], and destroy always destroys an engine
    instance before it frees the context. *)
Theorem null_encoder_guards_never_fire w held ctx :
  fully_valid w held → ctx ≠ NULL →
  (∀ pcm len out cap r w', pcm ≠ NULL → out ≠ NULL →
     opus_frame_encode ctx pcm len out cap w = Some (r, w') →
     ∃ enc n, trace w' = trace w ++ [EEncode enc pcm n out cap r]) ∧
  (∀ v r w', opus_frame_encoder_set_bitrate ctx v w = Some (r, w') →
     ∃ enc, trace w' = trace w ++ [ECtl enc OPUS_SET_BITRATE_REQUEST v r]) ∧
  (∀ v r w', opus_frame_encoder_set_complexity ctx v w = Some (r, w') →
     ∃ enc, trace w' = trace w ++ [ECtl enc OPUS_SET_COMPLEXITY_REQUEST v r]) ∧
  (∀ w', opus_frame_encoder_destroy ctx w = Some (tt, w') →
     ∃ enc, trace w' = trace w ++ [EDestroy enc; EFree ctx]).
Proof.
  intros Hinv Hctx.
  destruct (held !! ctx) as [[sr ch]|] eqn:Hheld; cycle 1.
  { destruct (unheld_handle_undefined w held ctx Hinv Hctx Hheld) as (He & Ht & Hd).
    split_and!; intros; rewrite ?set_bitrate_tuning, ?set_complexity_tuning in *;
      congruence. }
  destruct (fully_valid_held_handle w held ctx sr ch Hinv Hheld) as (enc & st & Hv & Hc).
  assert (∀ request v r w', tuning request ctx v w = Some (r, w') →
            ∃ enc, trace w' = trace w ++ [ECtl enc request v r]) as Htuning.
  { intros request v r w' Hcall.
    rewrite (tuning_forwards w request ctx enc st v Hv) in Hcall. injection Hcall as <- <-.
    destruct (controlled_heap enc request v st w) as (r & st' & Hf & Htrace & _).
    exists enc. by rewrite Htrace, Hf. }
  split_and!.
  - intros pcm len out cap r w' Hpcm Hout Hcall.
    assert (field_is w ctx f_channels ch) as Hf by by eexists.
    destruct (decide (to_size_t ch = 0)) as [Hz|Hz].
    { by rewrite (encode_zero_channels w ctx enc ch st pcm out len cap) in Hcall. }
    destruct (heap w !! pcm) as [[| |input]|] eqn:Hin;
      try (rewrite (encode_dangling_buffer w ctx enc ch st pcm out len cap) in Hcall;
           [done..|left; intros bytes; by rewrite Hin]).
    destruct (heap w !! out) as [[| |old]|] eqn:Hold;
      try (rewrite (encode_dangling_buffer w ctx enc ch st pcm out len cap) in Hcall;
           [done..|right; intros bytes; by rewrite Hold]).
    rewrite (encode_reaches_engine w ctx enc ch st pcm input out old) in Hcall by done.
    injection Hcall as <- <-.
    destruct (encoded_heap enc pcm (num_samples len ch) out cap st input old w)
      as (r & written & st' & Hfr & Htrace & _).
    exists enc, (num_samples len ch). by rewrite Htrace, Hfr.
  - intros v r w'. rewrite set_bitrate_tuning. apply Htuning.
  - intros v r w'. rewrite set_complexity_tuning. apply Htuning.
  - intros w' Hcall. rewrite (destroy_valid w ctx enc st Hv) in Hcall.
    injection Hcall as <-. by exists enc.
Qed.

(** *** Two handles side by side *)

Lemma encoded_elsewhere enc pcm n out cap st input old w p :
  p ≠ out → p ≠ enc →
  heap (encoded enc pcm n out cap st input old w) !! p = heap w !! p.
Proof.
  intros Hpo Hpe.
  destruct (encoded_heap enc pcm n out cap st input old w) as (r & wr & st' & _ & _ & ->).
  by rewrite !lookup_insert_ne by done.
Qed.

(** What an encode call reads is read at four addresses. *)
Lemma encode_ready_frame w w' ctx enc st ch pcm input out old :
  heap w' !! ctx = heap w !! ctx → heap w' !! enc = heap w !! enc →
  heap w' !! pcm = heap w !! pcm → heap w' !! out = heap w !! out →
  valid_handle w ctx enc st → field_is w ctx f_channels ch →
  buffer_at w pcm input → buffer_at w out old →
  valid_handle w' ctx enc st ∧ field_is w' ctx f_channels ch ∧
  buffer_at w' pcm input ∧ buffer_at w' out old.
Proof.
  unfold valid_handle, field_is, buffer_at. intros -> -> -> ->. tauto.
Qed.

Lemma encode_after_other_encode w ctx enc st ch pcm input out old len cap
    enc0 pcm0 n0 out0 cap0 st0 input0 old0 :
  valid_handle w ctx enc st → field_is w ctx f_channels ch →
  buffer_at w pcm input → buffer_at w out old → to_size_t ch ≠ 0 →
  heap w !! enc0 = Some (Enc st0) → heap w !! out0 = Some (Buf old0) →
  enc ≠ enc0 → pcm ≠ out0 → out ≠ out0 →
  opus_frame_encode ctx pcm len out cap (encoded enc0 pcm0 n0 out0 cap0 st0 input0 old0 w)
  = Some ((encode_frame st input (num_samples len ch) cap).1.1,
          encoded enc pcm (num_samples len ch) out cap st input old
                  (encoded enc0 pcm0 n0 out0 cap0 st0 input0 old0 w)).
Proof.
  intros Hv Hch Hpcm Hout Hz Hst0 Hold0 Hee Hpo Hoo.
  pose proof Hv as (_ & _ & (c & Hc & _) & Hst).
  pose proof Hpcm as [_ Hin]. pose proof Hout as [_ Hold].
  destruct (encode_ready_frame w (encoded enc0 pcm0 n0 out0 cap0 st0 input0 old0 w)
              ctx enc st ch pcm input out old) as (Hv' & Hch' & Hpcm' & Hout');
    try done; [..|by apply encode_reaches_engine];
    apply encoded_elsewhere; try done; intros ->; congruence.
Qed.

(** X11.  Encoders do not interfere.  Two valid handles with buffers of
    their own can be fed in either order: each call returns what the engine
    returns for its own instance and frame, whichever came first, and the
    memory after the two calls is the same. *)
Theorem encodes_on_two_handles_commute w held
    ctx1 enc1 st1 ch1 pcm1 input1 out1 old1 len1 cap1
    ctx2 enc2 st2 ch2 pcm2 input2 out2 old2 len2 cap2 :
  fully_valid w held → ctx1 ≠ ctx2 →
  valid_handle w ctx1 enc1 st1 → field_is w ctx1 f_channels ch1 → to_size_t ch1 ≠ 0 →
  valid_handle w ctx2 enc2 st2 → field_is w ctx2 f_channels ch2 → to_size_t ch2 ≠ 0 →
  buffer_at w pcm1 input1 → buffer_at w out1 old1 →
  buffer_at w pcm2 input2 → buffer_at w out2 old2 →
  out1 ≠ out2 → out1 ≠ pcm2 → out2 ≠ pcm1 →
  ∃ r1 r2 wa wb,
    both (opus_frame_encode ctx1 pcm1 len1 out1 cap1)
         (opus_frame_encode ctx2 pcm2 len2 out2 cap2) w = Some ((r1, r2), wa) ∧
    both (opus_frame_encode ctx2 pcm2 len2 out2 cap2)
         (opus_frame_encode ctx1 pcm1 len1 out1 cap1) w = Some ((r2, r1), wb) ∧
    heap wa = heap wb ∧
    r1 = (encode_frame st1 input1 (num_samples len1 ch1) cap1).1.1 ∧
    r2 = (encode_frame st2 input2 (num_samples len2 ch2) cap2).1.1.
Proof.
  intros Hinv Hctx Hv1 Hch1 Hz1 Hv2 Hch2 Hz2 Hpcm1 Hout1 Hpcm2 Hout2 Hoo Hop1 Hop2.
  assert (enc1 ≠ enc2) as Hee.
  { intros <-. apply Hctx. by eapply fully_valid_own_instance. }
  pose proof Hv1 as (_ & _ & _ & Hst1). pose proof Hv2 as (_ & _ & _ & Hst2).
  pose proof Hout1 as [_ Hold1]. pose proof Hout2 as [_ Hold2].
  eexists _, _, _, _. split_and!.
  - unfold both.
    erewrite bind_eq by by apply (encode_reaches_engine w ctx1 enc1 ch1 st1 pcm1 input1 out1 old1).
    erewrite bind_eq; [done|].
    by apply (encode_after_other_encode w ctx2 enc2 st2 ch2 pcm2 input2 out2 old2).
  - unfold both.
    erewrite bind_eq by by apply (encode_reaches_engine w ctx2 enc2 ch2 st2 pcm2 input2 out2 old2).
    erewrite bind_eq; [done|].
    by apply (encode_after_other_encode w ctx1 enc1 st1 ch1 pcm1 input1 out1 old1).
  - unfold encoded.
    destruct (encode_frame st1 input1 (num_samples len1 ch1) cap1) as [[r1 written1] st1'].
    destruct (encode_frame st2 input2 (num_samples len2 ch2) cap2) as [[r2 written2] st2'].
    simpl.
    assert (out1 ≠ enc2) by (intros ->; congruence).
    assert (out2 ≠ enc1) by (intros ->; congruence).
    rewrite (insert_insert_ne _ enc2 out1) by done.
    rewrite (insert_insert_ne _ out2 out1) by done.
    rewrite (insert_insert_ne _ enc2 enc1) by done.
    by rewrite (insert_insert_ne _ out2 enc1) by done.
  - done.
  - done.
Qed.

End Properties.

Section Determinism.
Context `{engine : CodecEngine}.

(** C9.  Two-run determinism.  Take a fixed sequence of frames and tuning
    calls, and two handles freshly constructed with the same sample rate,
    channel count and application, in any two worlds, by any two
    allocators, each with buffers of the caller's own.  If the session on
    the first handle runs and yields the per-action results [outs] (return
    value and compressed bytes of each frame), the session on the second
    handle runs too and yields the same [outs], byte for byte. *)
Theorem two_run_determinism pick1 pick2 (w1 w2 : world) sr ch app
    pcm1 out1 pcm2 out2 actions ctx1 outs w1' ctx2 w2c :
  (∃ bytes, buffer_at w1 pcm1 bytes) → (∃ bytes, buffer_at w1 out1 bytes) →
  pcm1 ≠ out1 →
  (∃ bytes, buffer_at w2 pcm2 bytes) → (∃ bytes, buffer_at w2 out2 bytes) →
  pcm2 ≠ out2 →
  fresh_session pick1 sr ch app pcm1 out1 actions w1 = Some ((ctx1, outs), w1') →
  ctx1 ≠ NULL →
  opus_frame_encoder_create pick2 sr ch app w2 = Some (ctx2, w2c) →
  ctx2 ≠ NULL →
  ∃ w2', fresh_session pick2 sr ch app pcm2 out2 actions w2 = Some ((ctx2, outs), w2').
Proof.
  intros Hp1 Ho1 Hne1 Hp2 Ho2 Hne2 Hrun1 Hctx1 Hcreate2 Hctx2.
  unfold fresh_session in Hrun1.
  apply bind_inv in Hrun1 as (c1 & w1c & Hcreate1 & Hrun1).
  destruct (decide (c1 = NULL)) as [->|Hc1].
  { injection Hrun1 as <- <- <-. done. }
  apply bind_inv in Hrun1 as (os & w1s & Hsession1 & [= -> <- <-]).
  destruct (create_session_ready pick1 w1 sr ch app ctx1 w1c pcm1 out1)
    as (enc1 & st1 & Hinit1 & Hready1); try done.
  destruct (create_session_ready pick2 w2 sr ch app ctx2 w2c pcm2 out2)
    as (enc2 & st2 & Hinit2 & Hready2); try done.
  rewrite Hinit1 in Hinit2. injection Hinit2 as <-.
  pose proof (session_reference w1c ctx1 pcm1 out1 enc1 ch st1 actions Hready1) as Href1.
  pose proof (session_reference w2c ctx2 pcm2 out2 enc2 ch st1 actions Hready2) as Href2.
  destruct (reference_outputs ch st1 actions) as [outs'|].
  - destruct Href1 as [w1'' Hs1]. rewrite Hsession1 in Hs1. injection Hs1 as -> _.
    destruct Href2 as [w2' Hs2]. exists w2'.
    unfold fresh_session. erewrite bind_eq by done.
    rewrite decide_False by done. by erewrite bind_eq by done.
  - by rewrite Hsession1 in Href1.
Qed.
End Determinism.

(** ** The wrapper at work on the stand-in engine *)

#[local] Existing Instance stub_engine.

(** A run whose value is known has a final world. *)
Lemma defined_with `{engine : CodecEngine} {A} (m : option (A * world)) (a : A) :
  fst <$> m = Some a → ∃ w, m = Some (a, w).
Proof. destruct m as [[a' w]|]; [|done]. intros [= ->]. by exists w. Qed.

Lemma w0_no_contexts : no_contexts w0.
Proof.
  intros p c. unfold w0, caller_heap. simpl.
  rewrite lookup_insert. case_decide; [done|].
  rewrite lookup_insert. case_decide; [done|]. by rewrite lookup_empty.
Qed.

Lemma w1_valid_handle : valid_handle w1 4128 4144 (stub_fresh 48000 1).
Proof.
  split_and!; [done|done| |by vm_compute].
  exists (constructed 4144 48000 1). split; [by vm_compute|done].
Qed.

Lemma w1_channels : field_is w1 4128 f_channels 1.
Proof. exists (constructed 4144 48000 1). split; [by vm_compute|done]. Qed.

Lemma w1_pcm : buffer_at w1 256 (replicate 1920 x01).
Proof. split; [done|by vm_compute]. Qed.

Lemma w1_out : buffer_at w1 512 (replicate 8 xff).
Proof. split; [done|by vm_compute]. Qed.

Example create_on_w0 :
  opus_frame_encoder_create (bump 4096) 48000 1 2048 w0
  = Some (4128, w1).
Proof. vm_compute. reflexivity. Qed.

Example frame_size_on_w1 :
  opus_frame_encoder_get_frame_size 4128 w1 = Some (960, w1).
Proof. vm_compute. reflexivity. Qed.

Example encode_on_w1 :
  (λ rw, (rw.1, heap rw.2 !! 512)) <$> opus_frame_encode 4128 256 1920 512 8 w1
  = Some (2, Some (Buf (x7c :: x01 :: replicate 6 xff))).
Proof. vm_compute. reflexivity. Qed.

Example encode_short_output_on_w1 :
  fst <$> opus_frame_encode 4128 256 1920 512 1 w1 = Some (-2).
Proof. vm_compute. reflexivity. Qed.

Example destroy_on_w1 :
  opus_frame_encoder_destroy 4128 w1
  = Some (tt, mk_world caller_heap
                [EMalloc 4128; ECreate 48000 1 2048 0 4144; EDestroy 4144; EFree 4128]).
Proof. vm_compute. reflexivity. Qed.

Example create_rejected_configuration :
  opus_frame_encoder_create (bump 4096) 44100 1 2048 w0
  = Some (NULL, mk_world caller_heap
                  [EMalloc 4128; ECreate 44100 1 2048 (-1) NULL; EFree 4128]).
Proof. vm_compute. reflexivity. Qed.

(** *** C1 *)

(** C1 at a canonical frame, 1920 bytes of mono PCM being 960 samples, and
    at a negative length, where the result is still the engine's. *)
Lemma encode_sample_count_and_result_witness :
  (∃ n r w', opus_frame_encode 4128 256 1920 512 8 w1 = Some (r, w') ∧
             trace w' = trace w1 ++ [EEncode 4144 256 n 512 8 r] ∧
             r = (encode_frame (stub_fresh 48000 1) (replicate 1920 x01) n 8).1.1 ∧
             n = 960) ∧
  (∃ n r w', opus_frame_encode 4128 256 (-3) 512 8 w1 = Some (r, w') ∧
             trace w' = trace w1 ++ [EEncode 4144 256 n 512 8 r] ∧
             r = (encode_frame (stub_fresh 48000 1) (replicate 1920 x01) n 8).1.1).
Proof.
  split.
  - destruct (encode_sample_count_and_result w1 4128 4144 (stub_fresh 48000 1) 1
                256 (replicate 1920 x01) 512 (replicate 8 xff) 1920 8
                w1_valid_handle w1_channels w1_pcm w1_out ltac:(by vm_compute))
      as (n & r & w' & Hcall & Htrace & Hr & Hn).
    exists n, r, w'. split; [exact Hcall|]. split; [exact Htrace|]. split; [exact Hr|].
    exact (Hn ltac:(lia) ltac:(lia)).
  - destruct (encode_sample_count_and_result w1 4128 4144 (stub_fresh 48000 1) 1
                256 (replicate 1920 x01) 512 (replicate 8 xff) (-3) 8
                w1_valid_handle w1_channels w1_pcm w1_out ltac:(by vm_compute))
      as (n & r & w' & Hcall & Htrace & Hr & _).
    exists n, r, w'. split; [exact Hcall|]. split; [exact Htrace|exact Hr].
Defined.

(** C1 as stated fails at [pcm_length = -3] on a valid mono handle with
    live buffers: the engine is handed 2147483646 samples, where
    [pcm_length / 2 / channels] is -1 (truncating) or -2 (flooring).  Even a
    64-bit [size_t] would not give the truncated quotient.  It fails on a
    handle of zero channels, where the call divides by zero and returns
    nothing, and on a handle whose channel count is negative, where the
    engine is handed 0 samples for 1920 bytes, not -960. *)
Lemma encode_negative_length_counterexample :
  valid_handle w1 4128 4144 (stub_fresh 48000 1) ∧
  buffer_at w1 256 (replicate 1920 x01) ∧ buffer_at w1 512 (replicate 8 xff) ∧
  trace <$> (snd <$> opus_frame_encode 4128 256 (-3) 512 8 w1)
  = Some (trace w1 ++ [EEncode 4144 256 2147483646 512 8 (-1)]) ∧
  Z.quot (Z.quot (-3) 2) 1 = -1 ∧ (-3) / 2 / 1 = -2 ∧
  num_samples_lp64 (-3) 1 = -2 ∧
  valid_handle w_zero_channels 4128 4144 (stub_fresh 48000 1) ∧
  opus_frame_encode 4128 256 1920 512 8 w_zero_channels = None ∧
  valid_handle w_negative_channels 4128 4144 (stub_fresh 48000 1) ∧
  field_is w_negative_channels 4128 f_channels (-1) ∧
  trace <$> (snd <$> opus_frame_encode 4128 256 1920 512 8 w_negative_channels)
  = Some [EEncode 4144 256 0 512 8 (-1)] ∧
  Z.quot (Z.quot 1920 2) (-1) = -960.
Proof.
  split_and!;
    [apply w1_valid_handle|apply w1_pcm|apply w1_out|by vm_compute|done|done|done
    | |by vm_compute| | |by vm_compute|done].
  - split_and!; [done|done| |by vm_compute].
    exists (constructed 4144 48000 0). split; [by vm_compute|done].
  - split_and!; [done|done| |by vm_compute].
    exists (constructed 4144 48000 (-1)). split; [by vm_compute|done].
  - exists (constructed 4144 48000 (-1)). split; [by vm_compute|done].
Qed.

(** *** C2 *)

(** C2 at each of the four null conditions. *)
Lemma encode_null_returns_minus_one_witness :
  opus_frame_encode NULL 256 1920 512 8 w1 = Some (-1, w1) ∧
  opus_frame_encode 4128 NULL 1920 512 8 w1 = Some (-1, w1) ∧
  opus_frame_encode 4128 256 1920 NULL 8 w1 = Some (-1, w1) ∧
  opus_frame_encode 4128 256 1920 512 8 w_null_encoder = Some (-1, w_null_encoder).
Proof.
  split_and!.
  - apply (encode_null_returns_minus_one w1 NULL 256 1920 512 8). by left.
  - apply (encode_null_returns_minus_one w1 4128 NULL 1920 512 8).
    right. exists 4144. split; [apply w1_valid_handle|]. right. by left.
  - apply (encode_null_returns_minus_one w1 4128 256 1920 NULL 8).
    right. exists 4144. split; [apply w1_valid_handle|]. right. by right.
  - apply (encode_null_returns_minus_one w_null_encoder 4128 256 1920 512 8).
    right. exists NULL. split; [|by left].
    exists (constructed NULL 48000 1). split; [by vm_compute|done].
Defined.

(** *** C3 *)

(** C3 as stated fails when memory runs out: 48000 Hz mono is a
    configuration the engine accepts, and create returns null, without
    asking the engine when [malloc] has nothing left, and after the engine
    has found no room for its instance when [malloc] had one block left. *)
Lemma create_out_of_memory_counterexample :
  (48000 ∈ [8000; 12000; 16000; 24000; 48000]) ∧ (1 ∈ [1; 2]) ∧
  encoder_init 48000 1 2048 = (OPUS_OK, Some (stub_fresh 48000 1)) ∧
  opus_frame_encoder_create exhausted 48000 1 2048 w0
  = Some (NULL, log (EMalloc NULL) w0) ∧
  fresh_block (last_block 4096) (heap w0) = 4096 ∧
  opus_frame_encoder_create (last_block 4096) 48000 1 2048 w0
  = Some (NULL, mk_world caller_heap
                  [EMalloc 4096; ECreate 48000 1 2048 (-7) NULL; EFree 4096]).
Proof.
  split_and!; [by repeat constructor|by repeat constructor|done| |by vm_compute|].
  - vm_compute. reflexivity.
  - vm_compute. reflexivity.
Qed.

(** C3 at 48000 Hz mono: the frame size is 960. *)
Lemma create_then_get_frame_size_witness :
  (∃ ctx w', opus_frame_encoder_create (bump 4096) 48000 1 2048 w0
             = Some (ctx, w') ∧ ctx ≠ NULL ∧
             opus_frame_encoder_get_frame_size ctx w' = Some (960, w')) ∧
  opus_frame_encoder_get_frame_size NULL w1 = Some (0, w1) ∧
  opus_frame_encoder_get_frame_size 4128 w1 = Some (960, w1).
Proof.
  pose proof (create_then_get_frame_size (bump 4096) w0 48000 1 2048) as (Hcreate & _).
  pose proof (create_then_get_frame_size (bump 4096) w1 48000 1 2048) as (_ & Hnull & Hlive & _).
  split_and!.
  - apply Hcreate; [by repeat constructor|by repeat constructor| |by vm_compute|by vm_compute].
    by exists (stub_fresh 48000 1).
  - exact Hnull.
  - apply Hlive; [done|]. exists (constructed 4144 48000 1). split; [by vm_compute|done].
Defined.

(** *** C4 *)



(** *** C5 *)

(** C5 along a run that creates two handles, uses both, destroys the first
    and fails to create a third. *)
Lemma public_interface_invariant_witness :
  ∃ w', run (bump 4096)
            [Create 48000 1 2048; Encode 4128 256 1920 512 8; SetBitrate 4128 32000;
             Create 16000 2 2049; GetFrameSize 4128; Destroy 4128;
             SetComplexity 4160 3; Create 44100 2 2048] ∅ w0
        = Some (<[4160 := (16000, 2)]> ∅, w') ∧
        fully_valid w' (<[4160 := (16000, 2)]> ∅).
Proof.
  edestruct (defined_with
    (run (bump 4096)
       [Create 48000 1 2048; Encode 4128 256 1920 512 8; SetBitrate 4128 32000;
        Create 16000 2 2049; GetFrameSize 4128; Destroy 4128;
        SetComplexity 4160 3; Create 44100 2 2048] ∅ w0)
    (<[4160 := (16000, 2)]> ∅)) as [w' Hrun]; [by vm_compute|].
  exists w'. split; [done|].
  exact (public_interface_invariant (bump 4096) _ w0 ∅ _ w'
           (no_contexts_fully_valid w0 w0_no_contexts) Hrun).
Defined.

(** *** C6 *)

(** C6 on the null handle, on the handle of [w1], and on a context without
    an instance. *)
Lemma destroy_releases_everything_witness :
  opus_frame_encoder_destroy NULL w1 = Some (tt, w1) ∧
  (∃ w', opus_frame_encoder_destroy 4128 w1 = Some (tt, w') ∧
         trace w' = trace w1 ++ [EDestroy 4144; EFree 4128] ∧
         heap w' = delete 4128 (delete 4144 (heap w1)) ∧
         heap w' !! 4128 = None ∧ heap w' !! 4144 = None) ∧
  (∃ w', opus_frame_encoder_destroy 4128 w_null_encoder = Some (tt, w') ∧
         trace w' = trace w_null_encoder ++ [EFree 4128] ∧
         heap w' = delete 4128 (heap w_null_encoder)) ∧
  (∃ w', opus_frame_encoder_destroy 4128 w1 = Some (tt, w') ∧ heap w' = heap w0).
Proof.
  pose proof (destroy_releases_everything (bump 4096) w1 4128)
    as (Hnull & Hvalid & _ & Hround).
  pose proof (destroy_releases_everything (bump 4096) w_null_encoder 4128)
    as (_ & _ & Hbare & _).
  split_and!.
  - exact Hnull.
  - exact (Hvalid 4144 (stub_fresh 48000 1) w1_valid_handle).
  - apply Hbare; [done|]. exists (constructed NULL 48000 1). split; [by vm_compute|done].
  - apply (Hround 48000 1 2048 w0); [by vm_compute|done].
Defined.

(** *** C7 *)

(** C7 on the null handle and on the handle of [w1]: the stand-in accepts
    the bitrate and rejects the complexity, and both verdicts come back
    unchanged. *)
Lemma tuning_forwards_to_engine_witness :
  (opus_frame_encoder_set_bitrate NULL 32000 w1 = Some (-1, w1) ∧
   opus_frame_encoder_set_complexity NULL 32000 w1 = Some (-1, w1)) ∧
  (∃ r w', opus_frame_encoder_set_bitrate 4128 32000 w1 = Some (r, w') ∧
           r = 0 ∧ trace w' = trace w1 ++ [ECtl 4144 4002 32000 r]) ∧
  (∃ r w', opus_frame_encoder_set_complexity 4128 32000 w1 = Some (r, w') ∧
           r = -1 ∧ trace w' = trace w1 ++ [ECtl 4144 4010 32000 r]).
Proof.
  pose proof (tuning_forwards_to_engine w1 NULL 32000) as (Hnull & _).
  pose proof (tuning_forwards_to_engine w1 4128 32000) as (_ & Hvalid).
  destruct (Hvalid 4144 (stub_fresh 48000 1) w1_valid_handle) as (Hbitrate & Hcomplexity).
  split; [apply Hnull; by left|]. split; [exact Hbitrate|exact Hcomplexity].
Defined.

(** *** C8 *)

Example encode_w1_w2 : opus_frame_encode 4128 256 1920 512 8 w1 = Some (2, w2).
Proof. vm_compute. reflexivity. Qed.

(** C8 across one encode and one tuning call: the cached frame size is
    still 960. *)
Lemma encode_and_tuning_frame_condition_witness :
  (same_contexts (heap w1) (heap w2) ∧ same_buffers_except 512 (heap w1) (heap w2) ∧
   dom (heap w2) = dom (heap w1) ∧ field_is w2 4128 f_frame_size 960) ∧
  (∀ r w3, opus_frame_encoder_set_complexity 4128 3 w2 = Some (r, w3) →
           same_contexts (heap w2) (heap w3) ∧ same_buffers (heap w2) (heap w3) ∧
           field_is w3 4128 f_frame_size 960) ∧
  fst <$> opus_frame_encoder_set_complexity 4128 3 w2 = Some 0.
Proof.
  pose proof (encode_and_tuning_frame_condition w1 4128) as (Hencode & _).
  pose proof (encode_and_tuning_frame_condition w2 4128) as (_ & Htune).
  assert (field_is w1 4128 f_frame_size 960) as (c & Hc & Hfs)
    by (exists (constructed 4144 48000 1); split; [by vm_compute|done]).
  destruct (Hencode 256 1920 512 8 2 w2) as (Hsame & Hbufs & Hdom & _);
    [by vm_compute|].
  assert (field_is w2 4128 f_frame_size 960) as Hf2.
  { exists c. split; [by apply Hsame|done]. }
  split_and!; try done.
  intros r w3 Hcall.
  destruct (Htune 3 r w3) as (Hsame' & Hbufs' & _); [by right|].
  split_and!; try done.
  exists c. split; [apply Hsame'; by apply Hsame|done].
Defined.

(** *** C9 *)

Lemma w0_pcm : ∃ bytes, buffer_at w0 256 bytes.
Proof. exists (replicate 1920 x01). split; [done|by vm_compute]. Qed.

Lemma w0_out : ∃ bytes, buffer_at w0 512 bytes.
Proof. exists (replicate 8 xff). split; [done|by vm_compute]. Qed.

Lemma other_pcm : ∃ bytes, buffer_at w0' 64 bytes.
Proof. exists []. split; [done|by vm_compute]. Qed.

Lemma other_out : ∃ bytes, buffer_at w0' 96 bytes.
Proof. exists (replicate 16 x2a). split; [done|by vm_compute]. Qed.

(** C9 for two callers with different heaps, buffers and allocators. *)
Lemma two_run_determinism_witness :
  ∃ w1' w2',
    fresh_session (bump 4096) 48000 1 2048 256 512 three_frames w0
    = Some ((4128, three_frames_outputs), w1') ∧
    fresh_session (bump 8192) 48000 1 2048 64 96 three_frames w0'
    = Some ((8224, three_frames_outputs), w2').
Proof.
  edestruct (defined_with
    (fresh_session (bump 4096) 48000 1 2048 256 512 three_frames w0)
    (4128, three_frames_outputs)) as [w1' Hrun1]; [by vm_compute|].
  edestruct (defined_with (opus_frame_encoder_create (bump 8192) 48000 1 2048 w0') 8224)
    as [w2c Hcreate2]; [by vm_compute|].
  destruct (two_run_determinism (bump 4096) (bump 8192) w0 w0' 48000 1 2048
              256 512 64 96 three_frames 4128 three_frames_outputs w1' 8224 w2c
              w0_pcm w0_out ltac:(lia) other_pcm other_out ltac:(lia)
              Hrun1 ltac:(done) Hcreate2 ltac:(done)) as [w2' Hrun2].
  exists w1', w2'. split; [exact Hrun1|exact Hrun2].
Defined.

(** *** C10 *)

(** C10 at a negative length with a negative capacity, and at a length of
    one byte with no capacity: both calls reach the engine. *)
Lemma encode_length_not_validated_witness :
  (∃ r w', opus_frame_encode 4128 256 (-1920) 512 (-8) w1 = Some (r, w') ∧
           trace w' = trace w1 ++ [EEncode 4144 256 2147482688 512 (-8) r] ∧
           r = -1) ∧
  (∃ r w', opus_frame_encode 4128 256 1 512 0 w1 = Some (r, w') ∧
           trace w' = trace w1 ++ [EEncode 4144 256 0 512 0 r] ∧
           r = -1).
Proof.
  split.
  - destruct (encode_length_not_validated w1 4128 4144 (stub_fresh 48000 1) 1
                256 (replicate 1920 x01) 512 (replicate 8 xff) (-1920) (-8)
                w1_valid_handle w1_channels w1_pcm w1_out ltac:(by vm_compute))
      as (Hcall & _). exact Hcall.
  - destruct (encode_length_not_validated w1 4128 4144 (stub_fresh 48000 1) 1
                256 (replicate 1920 x01) 512 (replicate 8 xff) 1 0
                w1_valid_handle w1_channels w1_pcm w1_out ltac:(by vm_compute))
      as (Hcall & _). exact Hcall.
Defined.

(** C10 as stated fails at [pcm_length = -1921]: the count handed to the
    engine is 2147482687, not the truncated quotient -960 (nor would a
    64-bit [size_t] give it). *)
Lemma encode_negative_length_forwards_positive_count :
  valid_handle w1 4128 4144 (stub_fresh 48000 1) ∧
  buffer_at w1 256 (replicate 1920 x01) ∧ buffer_at w1 512 (replicate 8 xff) ∧
  trace <$> (snd <$> opus_frame_encode 4128 256 (-1921) 512 8 w1)
  = Some (trace w1 ++ [EEncode 4144 256 2147482687 512 8 (-1)]) ∧
  Z.quot (Z.quot (-1921) 2) 1 = -960 ∧
  num_samples_lp64 (-1921) 1 = -961.
Proof.
  split_and!;
    [apply w1_valid_handle|apply w1_pcm|apply w1_out|by vm_compute|done|done].
Qed.

(** *** Further properties *)

(** X2 on a second handle, created at 16000 Hz: its frame size is 320. *)
Lemma create_caches_truncated_frame_size_witness :
  ∃ w', opus_frame_encoder_create (bump 4096) 16000 2 2049 w1 = Some (4160, w') ∧
        opus_frame_encoder_get_frame_size 4160 w' = Some (320, w').
Proof.
  edestruct (defined_with (opus_frame_encoder_create (bump 4096) 16000 2 2049 w1) 4160)
    as [w' Hcreate]; [by vm_compute|].
  exists w'. split; [exact Hcreate|].
  exact (create_caches_truncated_frame_size (bump 4096) w1 16000 2 2049 4160 w'
           Hcreate ltac:(done)).
Defined.

(** X3 on the handle of [w1]: after destroy, asking for its frame size or
    destroying it again is undefined. *)
Lemma use_after_destroy_is_undefined_witness :
  opus_frame_encoder_destroy 4128 w1 = Some (tt, destroyed 4128 4144 w1) ∧
  opus_frame_encoder_get_frame_size 4128 (destroyed 4128 4144 w1) = None ∧
  opus_frame_encoder_destroy 4128 (destroyed 4128 4144 w1) = None.
Proof.
  destruct (use_after_destroy_is_undefined w1 4128 4144 (stub_fresh 48000 1)
              256 1920 512 8 32000 w1_valid_handle) as (Hsize & _ & _ & _ & Hdestroy).
  split; [by vm_compute|]. split; [exact Hsize|exact Hdestroy].
Defined.


Lemma stub_instance_only_on_success : @instance_only_on_success stub_engine.
Proof.
  intros sr ch app error st. simpl. unfold stub_init.
  destruct (_ && _); by intros [= <- _].
Qed.

Lemma w0_no_stray_instances : no_stray_instances w0.
Proof.
  intros e s. unfold w0, caller_heap. simpl.
  rewrite lookup_insert. case_decide; [done|].
  rewrite lookup_insert. case_decide; [done|]. by rewrite lookup_empty.
Qed.

Lemma w1_fully_valid : fully_valid w1 (<[4128 := (48000, 1)]> ∅).
Proof.
  exact (call_preserves_fully_valid (bump 4096) w0 ∅ (Create 48000 1 2048) 4128 w1
           (no_contexts_fully_valid w0 w0_no_contexts) create_on_w0).
Qed.

Example create_on_w1 :
  opus_frame_encoder_create (bump 4096) 16000 2 2049 w1 = Some (4160, w3).
Proof. vm_compute. reflexivity. Qed.

Lemma w3_fully_valid : fully_valid w3 (<[4160 := (16000, 2)]> (<[4128 := (48000, 1)]> ∅)).
Proof.
  exact (call_preserves_fully_valid (bump 4096) w1 _ (Create 16000 2 2049) 4160 w3
           w1_fully_valid create_on_w1).
Qed.

Lemma w3_first_handle : valid_handle w3 4128 4144 (stub_fresh 48000 1).
Proof.
  split_and!; [done|done| |by vm_compute].
  exists (constructed 4144 48000 1). split; [by vm_compute|done].
Qed.

Lemma w3_second_handle : valid_handle w3 4160 4176 (stub_fresh 16000 2).
Proof.
  split_and!; [done|done| |by vm_compute].
  exists (constructed 4176 16000 2). split; [by vm_compute|done].
Qed.


(** X5 on the two handles of [w3]: tuning, encoding with and destroying the
    second leaves the first as it was. *)
Lemma other_handles_unaffected_witness :
  (∃ r w', opus_frame_encoder_set_bitrate 4160 32000 w3 = Some (r, w') ∧
           valid_handle w' 4128 4144 (stub_fresh 48000 1) ∧
           field_is w' 4128 f_frame_size 960) ∧
  (∃ w', opus_frame_encoder_destroy 4160 w3 = Some (tt, w') ∧
         valid_handle w' 4128 4144 (stub_fresh 48000 1) ∧
         field_is w' 4128 f_frame_size 960).
Proof.
  assert (field_is w3 4128 f_frame_size 960) as Hfs
    by (exists (constructed 4144 48000 1); split; [by vm_compute|done]).
  split.
  - edestruct (defined_with (opus_frame_encoder_set_bitrate 4160 32000 w3) 0)
      as [w' Hcall]; [by vm_compute|].
    destruct (other_handles_unaffected (bump 4096) w3 _ (SetBitrate 4160 32000) 0 w'
                4128 4144 (stub_fresh 48000 1) w3_fully_valid Hcall w3_first_handle
                ltac:(done)) as [Hv Hfields].
    exists 0, w'. split; [exact Hcall|]. split; [exact Hv|exact (Hfields _ _ Hfs)].
  - edestruct (defined_with (opus_frame_encoder_destroy 4160 w3) tt)
      as [w' Hcall]; [by vm_compute|].
    destruct (other_handles_unaffected (bump 4096) w3 _ (Destroy 4160) 0 w'
                4128 4144 (stub_fresh 48000 1) w3_fully_valid
                ltac:(simpl; by erewrite bind_eq by exact Hcall)
                w3_first_handle ltac:(done)) as [Hv Hfields].
    exists w'. split; [exact Hcall|]. split; [exact Hv|exact (Hfields _ _ Hfs)].
Defined.

(** X6 on a complete life of two encoders: the caller's two buffers are
    all that is left. *)
Lemma no_engine_instance_is_leaked_witness :
  ∃ w', run (bump 4096) two_lives ∅ w0 = Some (∅, w') ∧
        fully_valid w' ∅ ∧ no_stray_instances w' ∧
        (∀ p b, heap w' !! p = Some b → ∃ bytes, b = Buf bytes).
Proof.
  edestruct (defined_with (run (bump 4096) two_lives ∅ w0) ∅) as [w' Hrun];
    [by vm_compute|].
  destruct (no_engine_instance_is_leaked (bump 4096) two_lives w0 ∅ ∅ w'
              stub_instance_only_on_success
              (no_contexts_fully_valid w0 w0_no_contexts) w0_no_stray_instances Hrun)
    as (Hinv & Hno & Hrest).
  exists w'. split; [exact Hrun|]. split; [exact Hinv|].
  split; [exact Hno|exact (Hrest eq_refl)].
Defined.

(** X7 on a context of zero channels. *)
Lemma encode_divides_by_unchecked_channel_count_witness :
  opus_frame_encode 4128 256 1920 512 8 w_zero_channels = None ∧
  opus_frame_encode 4128 NULL 1920 512 8 w_zero_channels = Some (-1, w_zero_channels) ∧
  opus_frame_encode 4128 256 1920 NULL 8 w_zero_channels = Some (-1, w_zero_channels).
Proof.
  assert (valid_handle w_zero_channels 4128 4144 (stub_fresh 48000 1)) as Hv.
  { split_and!; [done|done| |by vm_compute].
    exists (constructed 4144 48000 0). split; [by vm_compute|done]. }
  assert (field_is w_zero_channels 4128 f_channels 0) as Hch
    by (exists (constructed 4144 48000 0); split; [by vm_compute|done]).
  destruct (encode_divides_by_unchecked_channel_count w_zero_channels 4128 4144
              (stub_fresh 48000 1) 256 1920 512 8 Hv Hch) as (Hub & Hpcm & Hout).
  split; [exact (Hub ltac:(done) ltac:(done))|]. split; [exact Hpcm|exact Hout].
Defined.

(** X8 at 48000 Hz mono: 960 samples are 1920 bytes, and the stand-in
    accepts the frame. *)
Lemma frame_size_bytes_are_one_frame_witness :
  ∃ fs enc st r w'',
    opus_frame_encoder_get_frame_size 4128 w1 = Some (fs, w1) ∧
    fs = 960 ∧
    encoder_init 48000 1 2048 = (OPUS_OK, Some st) ∧
    opus_frame_encode 4128 256 (fs * 2 * 1) 512 8 w1 = Some (r, w'') ∧
    trace w'' = trace w1 ++ [EEncode enc 256 fs 512 8 r] ∧
    r = (encode_frame st (replicate 1920 x01) fs 8).1.1.
Proof.
  exact (frame_size_bytes_are_one_frame (bump 4096) w0 48000 1 2048 4128 w1
           256 (replicate 1920 x01) 512 (replicate 8 xff) 8
           create_on_w0 ltac:(done) w1_pcm w1_out ltac:(lia) ltac:(lia) ltac:(by vm_compute)).
Defined.

(** X9 on the handle of [w1]: one frame, then a change of complexity. *)
Lemma handle_carries_engine_state_witness :
  (∃ r written st' w',
     encode_frame (stub_fresh 48000 1) (replicate 1920 x01) (num_samples 1920 1) 8
     = (r, written, st') ∧
     opus_frame_encode 4128 256 1920 512 8 w1 = Some (r, w') ∧
     valid_handle w' 4128 4144 st' ∧ field_is w' 4128 f_channels 1 ∧
     buffer_at w' 512 (written ++ drop (length written) (replicate 8 xff)) ∧
     (256 ≠ 512 → buffer_at w' 256 (replicate 1920 x01))) ∧
  (∃ r st' w',
     encoder_ctl (stub_fresh 48000 1) OPUS_SET_COMPLEXITY_REQUEST 3 = (r, st') ∧
     opus_frame_encoder_set_complexity 4128 3 w1 = Some (r, w') ∧
     valid_handle w' 4128 4144 st' ∧ field_is w' 4128 f_channels 1).
Proof.
  destruct (handle_carries_engine_state w1 4128 4144 (stub_fresh 48000 1) 1
              w1_valid_handle w1_channels) as (Hencode & _ & Hcomplexity).
  split.
  - exact (Hencode 256 (replicate 1920 x01) 512 (replicate 8 xff) 1920 8
             w1_pcm w1_out ltac:(by vm_compute) ltac:(vm_compute; lia)).
  - exact (Hcomplexity 3).
Defined.

(** X10 on the handle of [w1]: the [-1] of a tuning call comes from the
    engine, which was asked; and destroy destroys the instance. *)
Lemma null_encoder_guards_never_fire_witness :
  (∃ w', opus_frame_encoder_set_complexity 4128 32000 w1 = Some (-1, w') ∧
         ∃ enc, trace w' = trace w1 ++ [ECtl enc OPUS_SET_COMPLEXITY_REQUEST 32000 (-1)]) ∧
  (∃ w', opus_frame_encoder_destroy 4128 w1 = Some (tt, w') ∧
         ∃ enc, trace w' = trace w1 ++ [EDestroy enc; EFree 4128]).
Proof.
  destruct (null_encoder_guards_never_fire w1 _ 4128 w1_fully_valid ltac:(done))
    as (_ & _ & Hcomplexity & Hdestroy).
  split.
  - edestruct (defined_with (opus_frame_encoder_set_complexity 4128 32000 w1) (-1))
      as [w' Hcall]; [by vm_compute|].
    exists w'. split; [exact Hcall|exact (Hcomplexity 32000 (-1) w' Hcall)].
  - edestruct (defined_with (opus_frame_encoder_destroy 4128 w1) tt)
      as [w' Hcall]; [by vm_compute|].
    exists w'. split; [exact Hcall|exact (Hdestroy w' Hcall)].
Defined.

Lemma w4_fully_valid : fully_valid w4 (<[4160 := (16000, 2)]> (<[4128 := (48000, 1)]> ∅)).
Proof.
  assert (∀ p b, p ≠ 768 → heap w4 !! p = Some b ↔ heap w3 !! p = Some b) as Hsame.
  { intros p b Hp. unfold w4. simpl. by rewrite lookup_insert_ne. }
  assert (heap w4 !! 768 = Some (Buf (replicate 4 x00))) as Hnew by by vm_compute.
  assert (heap w3 !! 768 = None) as Hfree by by vm_compute.
  apply (fully_valid_frame w3 w4); [| |exact w3_fully_valid].
  - intros p c. destruct (decide (p = 768)) as [->|Hp]; [|by apply Hsame].
    rewrite Hnew, Hfree. split; intros [=].
  - intros e s He. exists s. apply Hsame; [|done]. intros ->. by rewrite Hfree in He.
Qed.

(** X11 on the two handles of [w4], a mono frame into the buffer at 512 and
    a stereo frame into the buffer at 768, in either order. *)
Lemma encodes_on_two_handles_commute_witness :
  ∃ wa wb,
    both (opus_frame_encode 4128 256 1920 512 8)
         (opus_frame_encode 4160 256 1280 768 4) w4 = Some ((2, 2), wa) ∧
    both (opus_frame_encode 4160 256 1280 768 4)
         (opus_frame_encode 4128 256 1920 512 8) w4 = Some ((2, 2), wb) ∧
    heap wa = heap wb.
Proof.
  destruct (encodes_on_two_handles_commute w4 _
              4128 4144 (stub_fresh 48000 1) 1 256 (replicate 1920 x01) 512
              (replicate 8 xff) 1920 8
              4160 4176 (stub_fresh 16000 2) 2 256 (replicate 1920 x01) 768
              (replicate 4 x00) 1280 4
              w4_fully_valid ltac:(done))
    as (r1 & r2 & wa & wb & Ha & Hb & Hheap & -> & ->).
  - split_and!; [done|done| |by vm_compute].
    exists (constructed 4144 48000 1). split; [by vm_compute|done].
  - exists (constructed 4144 48000 1). split; [by vm_compute|done].
  - by vm_compute.
  - split_and!; [done|done| |by vm_compute].
    exists (constructed 4176 16000 2). split; [by vm_compute|done].
  - exists (constructed 4176 16000 2). split; [by vm_compute|done].
  - by vm_compute.
  - split; [done|by vm_compute].
  - split; [done|by vm_compute].
  - split; [done|by vm_compute].
  - split; [done|by vm_compute].
  - done.
  - done.
  - done.
  - exists wa, wb. split; [exact Ha|]. split; [exact Hb|exact Hheap].
Defined.
